(** * translicate_consumer: ordering coordinator of the replicate proof of concept

    Shallow embedding of [services/replicate-poc/translicate_consumer.py]
    and the properties of its LSN codec, DDL replayer, DML applier,
    sequence synchronizer and per-message handler.

    Conventions of the embedding.
    - Python [int] is [Z]; [<<], [>>] and [&] are [Z.shiftl], [Z.shiftr]
      and [Z.land] (Python integers are unbounded, nothing wraps).
    - Python [str] is [string]; the texts handled here (LSNs, SQL) are
      ASCII, and the string functions are modelled on that fragment.
    - An exception is an explicit outcome carrying the state reached when
      it was raised, so that what was executed before it stays visible.
    - The two databases are oracles over the history of events: what the
      replica answers to a statement and what the primary returns to the
      DDL-log query are parameters of the model, never fixed by it. *)

From Stdlib Require Import ZArith List String Ascii Bool Lia.
Import ListNotations.
Open Scope string_scope.
Open Scope Z_scope.

(** ** Exceptions *)

Inductive Exn : Type :=
| ValueError                         (* int(), tuple unpacking *)
| KeyError (key : string)            (* d[key] on a missing key *)
| DatabaseError (sql : string).      (* cursor.execute failed *)

Inductive Result (A : Type) : Type :=
| Ok (a : A)
| Err (e : Exn).
Arguments Ok {A} a.
Arguments Err {A} e.

Definition rbind {A B} (r : Result A) (k : A -> Result B) : Result B :=
  match r with
  | Ok a => k a
  | Err e => Err e
  end.

(** ** Python string primitives *)

Module Py.

(** [s.split(sep)] for a one-character separator: one more part than
    there are separators, empty parts kept. *)
Fixpoint split (sep : ascii) (s : string) : list string :=
  match s with
  | EmptyString => [EmptyString]
  | String c rest =>
      if Ascii.eqb c sep then EmptyString :: split sep rest
      else match split sep rest with
           | hd :: tl => String c hd :: tl
           | [] => [String c EmptyString]
           end
  end.

(** [sep.join(parts)] *)
Fixpoint join (sep : string) (parts : list string) : string :=
  match parts with
  | [] => EmptyString
  | [p] => p
  | p :: ps => p ++ sep ++ join sep ps
  end.

(** [s.lower()] on ASCII letters. *)
Definition lower_char (c : ascii) : ascii :=
  let n := nat_of_ascii c in
  if (Nat.leb 65 n && Nat.leb n 90)%bool then ascii_of_nat (n + 32) else c.

Fixpoint lower (s : string) : string :=
  match s with
  | EmptyString => EmptyString
  | String c rest => String (lower_char c) (lower rest)
  end.

Fixpoint startswith (p s : string) : bool :=
  match p, s with
  | EmptyString, _ => true
  | String a p', String b s' => Ascii.eqb a b && startswith p' s'
  | String _ _, EmptyString => false
  end.

(** [needle in s] *)
Fixpoint contains (needle s : string) : bool :=
  startswith needle s ||
  match s with
  | EmptyString => false
  | String _ s' => contains needle s'
  end.

(** [Py_ISSPACE]: the blanks [int()] skips on both sides of a literal. *)
Definition is_space (c : ascii) : bool :=
  let n := nat_of_ascii c in
  (Nat.leb 9 n && Nat.leb n 13 || Nat.eqb n 32)%bool.

Fixpoint lstrip (s : string) : string :=
  match s with
  | String c rest => if is_space c then lstrip rest else s
  | EmptyString => EmptyString
  end.

(** Value of a character as a base-16 digit, both cases. *)
Definition hex_digit_value (c : ascii) : option Z :=
  let n := nat_of_ascii c in
  if (Nat.leb 48 n && Nat.leb n 57)%bool then Some (Z.of_nat n - 48)
  else if (Nat.leb 97 n && Nat.leb n 102)%bool then Some (Z.of_nat n - 87)
  else if (Nat.leb 65 n && Nat.leb n 70)%bool then Some (Z.of_nat n - 55)
  else None.

(** The digit loop of [int(s, 16)]: digits and single underscores between
    them; two underscores in a row or a trailing one are errors.  Returns
    the value read and what follows the literal. *)
Fixpoint scan_hex (prev_us : bool) (acc : Z) (s : string)
  : option (Z * string) :=
  match s with
  | String c rest =>
      if Ascii.eqb c "_" then
        if prev_us then None else scan_hex true acc rest
      else
        match hex_digit_value c with
        | Some d => scan_hex false (16 * acc + d) rest
        | None => if prev_us then None else Some (acc, s)
        end
  | EmptyString => if prev_us then None else Some (acc, s)
  end.

(** [int(s, 16)]: blanks, an optional sign, an optional [0x]/[0X] prefix
    (one underscore may follow it), at least one digit, blanks, end.
    [None] stands for [ValueError]. *)
Definition int16 (s : string) : option Z :=
  let s1 := lstrip s in
  let '(sign, s2) :=
    match s1 with
    | String "+" r => (1, r)
    | String "-" r => (-1, r)
    | _ => (1, s1)
    end in
  let s3 :=
    match s2 with
    | String "0" (String x r) =>
        if (Ascii.eqb x "x" || Ascii.eqb x "X")%bool then
          match r with
          | String "_" r' => r'
          | _ => r
          end
        else s2
    | _ => s2
    end in
  match s3 with
  | EmptyString => None
  | String c _ =>
      if Ascii.eqb c "_" then None
      else
        match hex_digit_value c with
        | None => None
        | Some _ =>
            match scan_hex false 0 s3 with
            | Some (v, rest) =>
                match lstrip rest with
                | EmptyString => Some (sign * v)
                | String _ _ => None
                end
            | None => None
            end
        end
  end.

(** [format(n, 'x')]: lower-case digits, most significant first, no
    leading zero, [-] before a negative number. *)
Definition hex_digit_char (d : Z) : ascii :=
  if d <? 10 then ascii_of_nat (Z.to_nat d + 48)
  else ascii_of_nat (Z.to_nat d + 87).

Fixpoint hex_digits (fuel : nat) (n : Z) (acc : string) : string :=
  match fuel with
  | O => acc
  | S fuel' =>
      let acc' := String (hex_digit_char (n mod 16)) acc in
      if n <? 16 then acc' else hex_digits fuel' (n / 16) acc'
  end.

Definition hex_nonneg (n : Z) : string :=
  hex_digits (S (Z.to_nat (Z.log2 n))) n EmptyString.

Definition format_x (n : Z) : string :=
  if n <? 0 then String "-" (hex_nonneg (- n)) else hex_nonneg n.

End Py.

(** ** LSN codec *)

(** [lsn_to_int]: ["0/0"] is 0; otherwise the text is split on [/] into
    exactly two parts (unpacking anything else raises [ValueError]) and
    both are read in base 16. *)
Definition lsn_to_int (lsn_str : string) : Result Z :=
  if String.eqb lsn_str "0/0" then Ok 0
  else
    match Py.split "/" lsn_str with
    | [high; low] =>
        match Py.int16 high with
        | None => Err ValueError
        | Some h =>
            match Py.int16 low with
            | None => Err ValueError
            | Some l => Ok (Z.shiftl h 32 + l)
            end
        end
    | _ => Err ValueError
    end.

Definition int_to_lsn (lsn_int : Z) : string :=
  if lsn_int =? 0 then "0/0"
  else
    let high := Z.shiftr lsn_int 32 in
    let low := Z.land lsn_int 4294967295 in
    Py.format_x high ++ "/" ++ Py.format_x low.

(** ** Data of the replication stream *)

(** A JSON scalar bound as a statement parameter. *)
Inductive Value : Type :=
| VNull
| VBool (b : bool)
| VInt (z : Z)
| VStr (s : string).

(** [change['oldkeys']]: a JSON object, either key may be missing. *)
Record OldKeys : Type := mkOldKeys {
  keynames : option (list string);
  keyvalues : option (list Value)
}.

(** One entry of the wal2json [change] array.  It is a JSON object: a
    field is [None] when the key is missing. *)
Record Change : Type := mkChange {
  table : option string;
  columnnames : option (list string);
  columnvalues : option (list Value);
  kind : option string;
  oldkeys : option OldKeys
}.

(** A row of [translicate_ddl_log] as the [RealDictCursor] returns it. *)
Record DdlRow : Type := mkDdlRow {
  lsn : string;
  ddl : string
}.

(** A row of [SEQ_QUERY]: schema, table, column, sequence. *)
Record SeqRow : Type := mkSeqRow {
  seq_schema : string;
  seq_table : string;
  seq_column : string;
  seq_sequence : string
}.

(** A replication message: its position and the decoded payload's
    ["change"] entry ([None] when the event has no such key). *)
Record Message : Type := mkMessage {
  data_start : Z;
  event_change : option (list Change)
}.

(** ** Observable events *)

(** One constructor per [print] of the source, with the values it
    interpolates. *)
Inductive LogLine : Type :=
| LogApplyingInsert (sql : string) (values : list Value)
| LogApplyingUpdate (sql : string) (values : list Value)
| LogApplyingDelete (sql : string) (values : list Value)
| LogUnsupportedOperation (operation : string)
| LogErrorApplyingDML (e : Exn)
| LogSyncing (full_seq column full_table : string)
| LogPolling (last_lsn_str : string)
| LogExecutingQuery (last_lsn_str : string)
| LogFound (n : nat)
| LogSkippingDDL (lsn : string)
| LogAttempting (lsn ddl : string)
| LogSuccessfullyApplied (lsn : string)
| LogErrorApplyingDDL (lsn : string) (e : Exn)
| LogWal2jsonEvent
| LogEventJson (msg : Message)
| LogCurrentLSN (lsn : Z)
| LogAppliedDDLLSN (s : string) (i : Z)
| LogWalLSNString (s : string)
| LogAfterPolling (s : string) (i : Z)
| LogNumberOfChanges (n : nat)
| LogSkippingChange
| LogProcessingDML (table : option string) (lsn : Z)
| LogBuffering (lsn applied : Z)
| LogApplyingImmediately
| LogCheckingBuffered
| LogApplyingBuffered (lsn : Z)
| LogFinalBuffered (n : nat)
| LogSyncingSequences.

Inductive Event : Type :=
| Print (line : LogLine)
| ReplicaExecute (sql : string) (params : list Value) (ok : bool)
| PrimaryExecute (sql : string) (param : string) (ok : bool)
| SendFeedback (flush_lsn : Z).

(** The databases, as functions of the history so far (oldest event
    first): whether the replica accepts a statement, what the primary
    returns to the DDL-log query ([None]: the query raises), and the rows
    the replica returns to the sequence catalog query. *)
Record Databases : Type := mkDatabases {
  replica_accepts : list Event -> string -> list Value -> bool;
  primary_ddl_log : list Event -> string -> option (list DdlRow);
  replica_sequences : list Event -> list SeqRow
}.

(** ** Program state *)

(** The closure variables of [main], the module-level buffer and the
    history of events. *)
Record State : Type := mkState {
  applied_ddl_lsn_str : string;
  applied_ddl_lsn_int : Z;
  BUFFERED_DMLS : list (Z * Change);
  trace : list Event
}.

Inductive Outcome (A : Type) : Type :=
| Normal (a : A) (st : State)
| Raise (e : Exn) (st : State).
Arguments Normal {A} a st.
Arguments Raise {A} e st.

Definition M (A : Type) : Type := State -> Outcome A.

Definition ret {A} (a : A) : M A := fun st => Normal a st.

Definition bind {A B} (c : M A) (k : A -> M B) : M B :=
  fun st =>
    match c st with
    | Normal a st' => k a st'
    | Raise e st' => Raise e st'
    end.

Definition raise {A} (e : Exn) : M A := fun st => Raise e st.

(** [try: body except Exception as e: handler(e)] *)
Definition try_except {A} (body : M A) (handler : Exn -> M A) : M A :=
  fun st =>
    match body st with
    | Normal a st' => Normal a st'
    | Raise e st' => handler e st'
    end.

Notation "x <- c ;; k" := (bind c (fun x => k))
  (at level 61, c at next level, right associativity).
Notation "c ;; k" := (bind c (fun _ => k))
  (at level 61, right associativity).

Definition emit (ev : Event) (st : State) : State :=
  mkState (applied_ddl_lsn_str st) (applied_ddl_lsn_int st)
          (BUFFERED_DMLS st) (trace st ++ [ev])%list.

Definition print (line : LogLine) : M unit :=
  fun st => Normal tt (emit (Print line) st).

(** [d[key]] *)
Definition getitem {A} (key : string) (field : option A) : M A :=
  match field with
  | Some v => ret v
  | None => raise (KeyError key)
  end.

(** [for x in xs: body(x)] without [break]. *)
Fixpoint for_each {A} (xs : list A) (body : A -> M unit) : M unit :=
  match xs with
  | [] => ret tt
  | x :: rest => body x ;; for_each rest body
  end.

Definition lift_result {A} (r : Result A) : M A :=
  match r with
  | Ok a => ret a
  | Err e => raise e
  end.

(** ** Constants *)

Definition DDL_LOG_QUERY : string :=
"
    SELECT * FROM translicate_ddl_log
    WHERE lsn > %s::pg_lsn
    ORDER BY lsn
".

Definition SEQ_QUERY : string :=
"
SELECT
  n.nspname AS schema,
  t.relname AS table,
  a.attname AS column,
  s.relname AS sequence
FROM pg_class s
JOIN pg_depend d ON d.objid = s.oid AND d.deptype = 'a'
JOIN pg_class t ON d.refobjid = t.oid
JOIN pg_attribute a ON a.attrelid = t.oid AND a.attnum = d.refobjsubid
JOIN pg_namespace n ON n.oid = t.relnamespace
WHERE s.relkind = 'S';
".

(** The statement [sync_sequences] builds for one sequence. *)
Definition setval_sql (column full_table : string) : string :=
"
            SELECT setval(
                %s,
                COALESCE((SELECT MAX(" ++ column ++ ") FROM " ++ full_table ++ "), 1)
            );
        ".

(** ** The program *)

Section Program.

Variable db : Databases.

(** [replica_cursor.execute(sql, params)]: recorded with its outcome;
    a rejected statement raises. *)
Definition replica_execute (sql : string) (params : list Value) : M unit :=
  fun st =>
    if replica_accepts db (trace st) sql params
    then Normal tt (emit (ReplicaExecute sql params true) st)
    else Raise (DatabaseError sql) (emit (ReplicaExecute sql params false) st).

(** [primary_cursor.execute(DDL_LOG_QUERY, (last,))] and [fetchall()]. *)
Definition primary_fetch_ddls (last_lsn_str : string) : M (list DdlRow) :=
  fun st =>
    match primary_ddl_log db (trace st) last_lsn_str with
    | Some rows =>
        Normal rows (emit (PrimaryExecute DDL_LOG_QUERY last_lsn_str true) st)
    | None =>
        Raise (DatabaseError DDL_LOG_QUERY)
              (emit (PrimaryExecute DDL_LOG_QUERY last_lsn_str false) st)
    end.

(** [replica_cursor.fetchall()] after [SEQ_QUERY]. *)
Definition replica_fetch_sequences : M (list SeqRow) :=
  fun st => Normal (replica_sequences db (trace st)) st.

Definition placeholders (cols : list string) : list string :=
  map (fun col => col ++ " = %s") cols.

Definition insert_sql (table : string) (columns : list string)
    (values : list Value) : string :=
  "INSERT INTO " ++ table ++ " (" ++ Py.join ", " columns ++ ") VALUES ("
    ++ Py.join ", " (repeat "%s" (List.length values)) ++ ")".

Definition update_sql (table : string) (columns keys : list string) : string :=
  "UPDATE " ++ table ++ " SET " ++ Py.join ", " (placeholders columns)
    ++ " WHERE " ++ Py.join " AND " (placeholders keys).

Definition delete_sql (table : string) (keys : list string) : string :=
  "DELETE FROM " ++ table ++ " WHERE " ++ Py.join " AND " (placeholders keys).

(** [apply_dml]: the four top-level lookups are outside the [try]; the
    statement construction, the old-key lookups and the execution are
    inside it, and whatever they raise is printed and swallowed. *)
Definition apply_dml (change : Change) : M unit :=
  table <- getitem "table" (table change) ;;
  columns <- getitem "columnnames" (columnnames change) ;;
  values <- getitem "columnvalues" (columnvalues change) ;;
  operation <- getitem "kind" (kind change) ;;
  try_except
    (if String.eqb operation "insert" then
       let sql := insert_sql table columns values in
       print (LogApplyingInsert sql values) ;;
       replica_execute sql values
     else if String.eqb operation "update" then
       ok1 <- getitem "oldkeys" (oldkeys change) ;;
       old_values <- getitem "keyvalues" (keyvalues ok1) ;;
       ok2 <- getitem "oldkeys" (oldkeys change) ;;
       names <- getitem "keynames" (keynames ok2) ;;
       let sql := update_sql table columns names in
       print (LogApplyingUpdate sql (values ++ old_values)%list) ;;
       replica_execute sql (values ++ old_values)%list
     else if String.eqb operation "delete" then
       ok1 <- getitem "oldkeys" (oldkeys change) ;;
       old_values <- getitem "keyvalues" (keyvalues ok1) ;;
       ok2 <- getitem "oldkeys" (oldkeys change) ;;
       names <- getitem "keynames" (keynames ok2) ;;
       let sql := delete_sql table names in
       print (LogApplyingDelete sql old_values) ;;
       replica_execute sql old_values
     else
       print (LogUnsupportedOperation operation))
    (fun e => print (LogErrorApplyingDML e)).

(** The body of the loop of [sync_sequences] for one catalog row. *)
Definition sync_one (row : SeqRow) : M unit :=
  let full_table := seq_schema row ++ "." ++ seq_table row in
  let full_seq := seq_schema row ++ "." ++ seq_sequence row in
  print (LogSyncing full_seq (seq_column row) full_table) ;;
  replica_execute (setval_sql (seq_column row) full_table) [VStr full_seq].

(** [sync_sequences]: no [try] anywhere in it. *)
Definition sync_sequences : M unit :=
  replica_execute SEQ_QUERY [] ;;
  rows <- replica_fetch_sequences ;;
  for_each rows sync_one.

(** The test that makes [poll_and_apply_ddls] skip a statement. *)
Definition is_administrative (ddl : string) : bool :=
  (Py.contains "translicate_ddl_log" (Py.lower ddl)
   || Py.contains "publication" (Py.lower ddl))%bool.

(** The [for ddl_row in ddls] loop of [poll_and_apply_ddls], from the
    current value of [applied_lsn_str].  The boolean tells whether the
    loop ran to its end ([true]) or left through [break] ([false]). *)
Fixpoint ddl_loop (ddls : list DdlRow) (applied_lsn_str : string)
  : M (string * bool) :=
  match ddls with
  | [] => ret (applied_lsn_str, true)
  | ddl_row :: rest =>
      if is_administrative (ddl ddl_row) then
        print (LogSkippingDDL (lsn ddl_row)) ;;
        ddl_loop rest (lsn ddl_row)
      else
        print (LogAttempting (lsn ddl_row) (ddl ddl_row)) ;;
        applied <-
          try_except
            (replica_execute (ddl ddl_row) [] ;;
             print (LogSuccessfullyApplied (lsn ddl_row)) ;;
             ret true)
            (fun e =>
               print (LogErrorApplyingDDL (lsn ddl_row) e) ;;
               ret false) ;;
        if applied : bool then ddl_loop rest (lsn ddl_row)
        else ret (applied_lsn_str, false)
  end.

Definition poll_and_apply_ddls (last_lsn_str : string) : M string :=
  print (LogPolling last_lsn_str) ;;
  print (LogExecutingQuery last_lsn_str) ;;
  ddls <- primary_fetch_ddls last_lsn_str ;;
  print (LogFound (List.length ddls)) ;;
  r <- ddl_loop ddls last_lsn_str ;;
  ret (fst r).

(** *** [handle_message] *)

Definition set_applied_str (s : string) : M unit :=
  fun st => Normal tt (mkState s (applied_ddl_lsn_int st)
                               (BUFFERED_DMLS st) (trace st)).

Definition set_applied_int (i : Z) : M unit :=
  fun st => Normal tt (mkState (applied_ddl_lsn_str st) i
                               (BUFFERED_DMLS st) (trace st)).

Definition set_buffer (b : list (Z * Change)) : M unit :=
  fun st => Normal tt (mkState (applied_ddl_lsn_str st)
                               (applied_ddl_lsn_int st) b (trace st)).

Definition get_state : M State := fun st => Normal st st.

Definition changes_of (msg : Message) : list Change :=
  match event_change msg with
  | Some cs => cs
  | None => []
  end.

(** Lines 183-196: the header prints and the DDL poll. *)
Definition poll_phase (msg : Message) : M unit :=
  print LogWal2jsonEvent ;;
  print (LogEventJson msg) ;;
  print (LogCurrentLSN (data_start msg)) ;;
  st <- get_state ;;
  print (LogAppliedDDLLSN (applied_ddl_lsn_str st) (applied_ddl_lsn_int st)) ;;
  print (LogWalLSNString (int_to_lsn (data_start msg))) ;;
  s <- poll_and_apply_ddls (applied_ddl_lsn_str st) ;;
  set_applied_str s ;;
  i <- lift_result (lsn_to_int s) ;;
  set_applied_int i ;;
  print (LogAfterPolling s i).

(** Lines 203-215: the body of [for change in changes]. *)
Definition process_change (msg : Message) (change : Change) : M unit :=
  if match table change with
     | Some t => String.eqb t "translicate_ddl_log"
     | None => false
     end
  then print LogSkippingChange
  else
    let lsn := data_start msg in
    print (LogProcessingDML (table change) lsn) ;;
    st <- get_state ;;
    if lsn >? applied_ddl_lsn_int st then
      print (LogBuffering lsn (applied_ddl_lsn_int st)) ;;
      set_buffer (BUFFERED_DMLS st ++ [(lsn, change)])%list
    else
      print LogApplyingImmediately ;;
      apply_dml change.

(** Lines 221-226: the loop over the buffer, [still] being
    [still_buffered]. *)
Fixpoint sweep_loop (msg : Message) (buffered : list (Z * Change))
    (still : list (Z * Change)) : M (list (Z * Change)) :=
  match buffered with
  | [] => ret still
  | (lsn, change) :: rest =>
      if lsn <=? data_start msg then
        print (LogApplyingBuffered lsn) ;;
        apply_dml change ;;
        sweep_loop msg rest still
      else
        sweep_loop msg rest (still ++ [(lsn, change)])%list
  end.

(** Lines 218-228. *)
Definition sweep_phase (msg : Message) : M unit :=
  st <- get_state ;;
  match BUFFERED_DMLS st with
  | [] => ret tt
  | _ :: _ =>
      print LogCheckingBuffered ;;
      still <- sweep_loop msg (BUFFERED_DMLS st) [] ;;
      set_buffer still ;;
      print (LogFinalBuffered (List.length still))
  end.

(** Lines 231-233. *)
Definition sync_phase (msg : Message) : M unit :=
  match changes_of msg with
  | [] => ret tt
  | _ :: _ =>
      print LogSyncingSequences ;;
      sync_sequences
  end.

Definition send_feedback (flush_lsn : Z) : M unit :=
  fun st => Normal tt (emit (SendFeedback flush_lsn) st).

Definition handle_message (msg : Message) : M unit :=
  poll_phase msg ;;
  print (LogNumberOfChanges (List.length (changes_of msg))) ;;
  for_each (changes_of msg) (process_change msg) ;;
  sweep_phase msg ;;
  sync_phase msg ;;
  send_feedback (data_start msg).

(** [stream_cursor.consume_stream(handle_message)] on a finite prefix
    of the stream: an exception leaves the loop. *)
Fixpoint consume_stream (msgs : list Message) : M unit :=
  match msgs with
  | [] => ret tt
  | msg :: rest => handle_message msg ;; consume_stream rest
  end.

End Program.

(** The state [main] starts the stream with. *)
Definition initial_state : State :=
  mkState "0/0" 0 [] [].

(** ** Vocabulary of the statements *)

(** A base-16 numeral in the strict sense: one or more hexadecimal
    digits and nothing else. *)
Fixpoint all_hex (s : string) : bool :=
  match s with
  | EmptyString => true
  | String c rest =>
      match Py.hex_digit_value c with
      | Some _ => all_hex rest
      | None => false
      end
  end.

Definition is_hex_numeral (s : string) : bool :=
  match s with
  | EmptyString => false
  | String _ _ => all_hex s
  end.

(** The number a string of hexadecimal digits denotes, continuing from
    [acc]. *)
Fixpoint hex_value (acc : Z) (s : string) : Z :=
  match s with
  | EmptyString => acc
  | String c rest =>
      match Py.hex_digit_value c with
      | Some d => hex_value (16 * acc + d) rest
      | None => acc
      end
  end.

(** Number of occurrences of a character. *)
Fixpoint count_char (c : ascii) (s : string) : nat :=
  match s with
  | EmptyString => O
  | String a rest =>
      if Ascii.eqb a c then S (count_char c rest) else count_char c rest
  end.

(** An LSN text in the strict sense: exactly one [/] between two
    base-16 numerals. *)
Definition strict_lsn_text (s : string) : bool :=
  (Nat.eqb (count_char "/" s) 1 &&
   match Py.split "/" s with
   | [high; low] => is_hex_numeral high && is_hex_numeral low
   | _ => false
   end)%bool.

Definition int16_accepts (s : string) : bool :=
  match Py.int16 s with
  | Some _ => true
  | None => false
  end.

(** An LSN text the decoder reads: exactly one [/] between two literals
    that [int(_, 16)] accepts. *)
Definition accepted_lsn_text (s : string) : bool :=
  (Nat.eqb (count_char "/" s) 1 &&
   match Py.split "/" s with
   | [high; low] => int16_accepts high && int16_accepts low
   | _ => false
   end)%bool.

Definition state_of {A} (o : Outcome A) : State :=
  match o with
  | Normal _ st => st
  | Raise _ st => st
  end.

(** Order of two LSN texts, through the decoder. *)
Definition lsn_ltb (a b : string) : bool :=
  match lsn_to_int a, lsn_to_int b with
  | Ok x, Ok y => x <? y
  | _, _ => false
  end.

Definition lsn_leb (a b : string) : bool :=
  match lsn_to_int a, lsn_to_int b with
  | Ok x, Ok y => x <=? y
  | _, _ => false
  end.

(** What [WHERE lsn > since ORDER BY lsn] returns from a log whose LSNs
    are distinct: rows after [since], in strictly ascending order. *)
Fixpoint ascending_from (since : string) (rows : list DdlRow) : bool :=
  match rows with
  | [] => true
  | row :: rest => (lsn_ltb since (lsn row) && ascending_from (lsn row) rest)%bool
  end.

(** A DDL entry is done with when it was skipped as administrative or
    the replica executed it successfully. *)
Definition ddl_done (tr : list Event) (row : DdlRow) : Prop :=
  is_administrative (ddl row) = true \/ In (ReplicaExecute (ddl row) [] true) tr.

(** The message handler up to the sequence synchronization. *)
Definition before_sync (db : Databases) (msg : Message) : M unit :=
  poll_phase db msg ;;
  print (LogNumberOfChanges (List.length (changes_of msg))) ;;
  for_each (changes_of msg) (process_change db msg) ;;
  sweep_phase db msg.

(** The statement a well-formed insert, update or delete is translated
    to, with the line printed before it is executed. *)
Definition dml_statement (c : Change)
  : option (LogLine * string * list Value) :=
  match table c, columnnames c, columnvalues c, kind c with
  | Some t, Some cols, Some vals, Some op =>
      if String.eqb op "insert" then
        Some (LogApplyingInsert (insert_sql t cols vals) vals,
              insert_sql t cols vals, vals)
      else
        match oldkeys c with
        | Some ok =>
            match keyvalues ok, keynames ok with
            | Some old, Some names =>
                if String.eqb op "update" then
                  Some (LogApplyingUpdate (update_sql t cols names)
                                          (vals ++ old)%list,
                        update_sql t cols names, (vals ++ old)%list)
                else if String.eqb op "delete" then
                  Some (LogApplyingDelete (delete_sql t names) old,
                        delete_sql t names, old)
                else None
            | _, _ => None
            end
        | None => None
        end
  | _, _, _, _ => None
  end.

(** The old-key column list of a change, when it has one. *)
Definition old_key_names (c : Change) : option (list string) :=
  match oldkeys c with
  | Some ok => keynames ok
  | None => None
  end.

(** The statements sent to the replica, in order, with their outcome. *)
Fixpoint replica_statements (tr : list Event) : list (string * bool) :=
  match tr with
  | [] => []
  | ReplicaExecute sql _ ok :: rest => (sql, ok) :: replica_statements rest
  | _ :: rest => replica_statements rest
  end.

Definition feedback_sent (tr : list Event) : bool :=
  existsb (fun ev => match ev with SendFeedback _ => true | _ => false end) tr.

(** An event the DDL replay may add to the history: anything but the
    execution of an administrative statement. *)
Definition replay_event (ev : Event) : Prop :=
  match ev with
  | ReplicaExecute sql _ _ => is_administrative sql = false
  | _ => True
  end.

(** ** Concrete databases and inputs used to run the model *)

(** A replica that accepts everything and a primary with an empty log. *)
Definition db_quiet : Databases :=
  mkDatabases (fun _ _ _ => true) (fun _ _ => Some []) (fun _ => []).

(** A primary whose log holds four entries after ["0/0"]; the replica
    rejects the third one. *)
Definition replay_rows : list DdlRow :=
  [ mkDdlRow "0/5" "CREATE TABLE a (id int)";
    mkDdlRow "0/7" "ALTER PUBLICATION translicate_pub ADD TABLE a";
    mkDdlRow "0/9" "CREATE TABLE b (id int REFERENCES missing)";
    mkDdlRow "0/B" "CREATE TABLE c (id int)" ].

Definition db_replay : Databases :=
  mkDatabases
    (fun _ sql _ => negb (Py.contains "missing" sql))
    (fun _ since => if String.eqb since "0/0" then Some replay_rows else Some [])
    (fun _ => []).

(** A replica that rejects every statement. *)
Definition db_reject_all : Databases :=
  mkDatabases (fun _ _ _ => false) (fun _ _ => Some []) (fun _ => []).

Definition insert_change : Change :=
  mkChange (Some "t") (Some ["id"; "name"]) (Some [VInt 1; VStr "a"])
           (Some "insert") None.

Definition update_change : Change :=
  mkChange (Some "t") (Some ["name"]) (Some [VStr "b"]) (Some "update")
           (Some (mkOldKeys (Some ["id"]) (Some [VInt 1]))).

(** A delete as wal2json writes it, with the column lists added. *)
Definition delete_change : Change :=
  mkChange (Some "t") (Some []) (Some []) (Some "delete")
           (Some (mkOldKeys (Some ["id"]) (Some [VInt 1]))).

(** An update without its [oldkeys] entry. *)
Definition update_without_oldkeys : Change :=
  mkChange (Some "t") (Some ["name"]) (Some [VStr "b"]) (Some "update") None.

(** A delete whose old-key lists are present and empty. *)
Definition delete_with_empty_keys : Change :=
  mkChange (Some "t") (Some []) (Some []) (Some "delete")
           (Some (mkOldKeys (Some []) (Some []))).

(** A computation that leaves [BUFFERED_DMLS] as it found it, however it
    ends. *)
Definition keeps_buffer {A} (c : M A) : Prop :=
  forall st, BUFFERED_DMLS (state_of (c st)) = BUFFERED_DMLS st.

(** A change against the DDL-log table, dropped by [handle_message]. *)
Definition is_noise (c : Change) : bool :=
  match table c with
  | Some t => String.eqb t "translicate_ddl_log"
  | None => false
  end.

(** The entries of the buffer the sweep keeps: those after the message. *)
Definition kept_by_sweep (msg : Message) (buffered : list (Z * Change))
  : list (Z * Change) :=
  filter (fun entry => negb (fst entry <=? data_start msg)) buffered.

(** Every buffered entry is at or before position [m]. *)
Definition buffer_upto (m : Z) (st : State) : Prop :=
  Forall (fun entry : Z * Change => fst entry <= m) (BUFFERED_DMLS st).

(** A primary whose only DDL entry, at ["0/5"], adds the column [name]
    to [t]; the replica rejects it and accepts everything else.  And a
    message at position 10 with one insert that uses the column. *)
Definition db_failing_ddl : Databases :=
  mkDatabases
    (fun _ sql _ => negb (Py.startswith "ALTER TABLE" sql))
    (fun _ _ => Some [mkDdlRow "0/5" "ALTER TABLE t ADD COLUMN name text"])
    (fun _ => []).

Definition insert_message : Message :=
  mkMessage 10 (Some [insert_change]).

(** A message whose only change is against the DDL-log table. *)
Definition noise_change : Change :=
  mkChange (Some "translicate_ddl_log") (Some ["lsn"; "ddl"])
           (Some [VStr "0/5"; VStr "CREATE TABLE t (id int)"])
           (Some "insert") None.

Definition noise_message : Message :=
  mkMessage 10 (Some [noise_change]).

(** A replica with two sequences; it rejects whatever mentions the
    table [public.gone], which the first sequence belongs to. *)
Definition db_two_sequences : Databases :=
  mkDatabases
    (fun _ sql _ => negb (Py.contains "public.gone" sql))
    (fun _ _ => Some [])
    (fun _ => [ mkSeqRow "public" "gone" "id" "gone_id_seq";
                mkSeqRow "public" "t" "id" "t_id_seq" ]).

(** A computation that only ever appends to the history. *)
Definition extends_trace {A} (c : M A) : Prop :=
  forall st, exists evs, trace (state_of (c st)) = (trace st ++ evs)%list.

(** ** Vocabulary of the further properties *)

(** A computation whose added events all satisfy [P]. *)
Definition adds (P : Event -> Prop) {A} (c : M A) : Prop :=
  forall st, exists evs,
    trace (state_of (c st)) = (trace st ++ evs)%list /\ Forall P evs.

(** A computation that leaves an observation of the state unchanged,
    however it ends. *)
Definition preserves {X} (f : State -> X) {A} (c : M A) : Prop :=
  forall st, f (state_of (c st)) = f st.

Definition not_feedback (ev : Event) : Prop :=
  match ev with
  | SendFeedback _ => False
  | _ => True
  end.

Definition not_replica (ev : Event) : Prop :=
  match ev with
  | ReplicaExecute _ _ _ => False
  | _ => True
  end.

(** The positions acknowledged to the primary, in order. *)
Fixpoint feedbacks (tr : list Event) : list Z :=
  match tr with
  | [] => []
  | SendFeedback l :: rest => l :: feedbacks rest
  | _ :: rest => feedbacks rest
  end.

(** The LSN texts the DDL log was asked about, in order. *)
Fixpoint primary_queries (tr : list Event) : list string :=
  match tr with
  | [] => []
  | PrimaryExecute _ since _ :: rest => since :: primary_queries rest
  | _ :: rest => primary_queries rest
  end.

(** The pair of closure variables that hold the applied DDL position. *)
Definition mark (st : State) : string * Z :=
  (applied_ddl_lsn_str st, applied_ddl_lsn_int st).

(** The text of the mark decodes to its integer. *)
Definition mark_consistent (st : State) : Prop :=
  lsn_to_int (applied_ddl_lsn_str st) = Ok (applied_ddl_lsn_int st).

(** The SQL text of a change that translates to a statement. *)
Definition statement_of (c : Change) : string :=
  match dml_statement c with
  | Some (_, sql, _) => sql
  | None => ""
  end.

(** The changes of a message that are not against the DDL-log table. *)
Definition row_changes (msg : Message) : list Change :=
  filter (fun c => negb (is_noise c)) (changes_of msg).

(** The statements a replay that goes through [rows] executes. *)
Definition replay_statements (rows : list DdlRow) : list (string * bool) :=
  map (fun row => (ddl row, true))
      (filter (fun row => negb (is_administrative (ddl row))) rows).

(** The statements a synchronization over [rows] executes. *)
Definition sync_statements (rows : list SeqRow) : list (string * bool) :=
  (SEQ_QUERY, true)
  :: map (fun row =>
            (setval_sql (seq_column row)
               (seq_schema row ++ "." ++ seq_table row), true)) rows.

(** A change has the four entries [apply_dml] reads before its [try]. *)
Definition has_keys (c : Change) : Prop :=
  table c <> None /\ columnnames c <> None
  /\ columnvalues c <> None /\ kind c <> None.

(** A primary that answers every query with the same rows. *)
Definition db_with_log (rows : list DdlRow)
    (accepts : string -> bool) : Databases :=
  mkDatabases (fun _ sql _ => accepts sql) (fun _ _ => Some rows) (fun _ => []).

(** A delete as wal2json writes it: no column lists, only [oldkeys]. *)
Definition wal2json_delete : Change :=
  mkChange (Some "t") None None (Some "delete")
           (Some (mkOldKeys (Some ["id"]) (Some [VInt 1]))).

(** A change of a kind the applier does not know. *)
Definition truncate_change : Change :=
  mkChange (Some "t") (Some []) (Some []) (Some "truncate") None.

(** A primary whose DDL-log query fails. *)
Definition db_primary_down : Databases :=
  mkDatabases (fun _ _ _ => true) (fun _ _ => None) (fun _ => []).

(** What the replay executes last when it stops before [rest]. *)
Definition failed_statement (rest : list DdlRow) : list (string * bool) :=
  match rest with
  | row :: _ => [(ddl row, false)]
  | [] => []
  end.

Definition not_primary (ev : Event) : Prop :=
  match ev with
  | PrimaryExecute _ _ _ => False
  | _ => True
  end.

(** The events of everything but the fetch and the acknowledgment:
    lines printed and statements sent to the replica. *)
Definition print_or_replica (ev : Event) : Prop :=
  match ev with
  | Print _ | ReplicaExecute _ _ _ => True
  | _ => False
  end.

(** How a computation ended. *)
Definition returned {A} (o : Outcome A) : bool :=
  match o with
  | Normal _ _ => true
  | Raise _ _ => false
  end.

(** The statements sent to the replica, without their outcome. *)
Definition sent (st : State) : list string :=
  map fst (replica_statements (trace st)).

(** A message with a change against the DDL-log table between two row
    changes. *)
Definition mixed_message : Message :=
  mkMessage 10 (Some [insert_change; noise_change; update_change]).

(** A replica with two sequences that accepts every statement. *)
Definition db_sequences_ok : Databases :=
  mkDatabases
    (fun _ _ _ => true)
    (fun _ _ => Some [])
    (fun _ => [ mkSeqRow "public" "a" "id" "a_id_seq";
                mkSeqRow "public" "t" "id" "t_id_seq" ]).

(** The primary answers every query on the DDL log, with rows whose LSN
    texts the decoder reads. *)
Definition primary_answers (db : Databases) : Prop :=
  forall tr since, exists rows,
    primary_ddl_log db tr since = Some rows
    /\ Forall (fun row => accepted_lsn_text (lsn row) = true) rows.

(** The replica accepts the statements of the sequence synchronizer. *)
Definition sync_always_accepted (db : Databases) : Prop :=
  (forall tr, replica_accepts db tr SEQ_QUERY [] = true)
  /\ (forall tr row,
        replica_accepts db tr
          (setval_sql (seq_column row) (seq_schema row ++ "." ++ seq_table row))
          [VStr (seq_schema row ++ "." ++ seq_sequence row)] = true).

(** A replica that rejects every schema and row change and accepts the
    statements of the synchronizer. *)
Definition db_only_sync : Databases :=
  mkDatabases
    (fun _ sql _ => Py.contains "SELECT" sql)
    (fun _ _ => Some replay_rows)
    (fun _ => [ mkSeqRow "public" "a" "id" "a_id_seq";
                mkSeqRow "public" "t" "id" "t_id_seq" ]).

(** A message with a delete as wal2json writes it. *)
Definition delete_message : Message :=
  mkMessage 10 (Some [insert_change; wal2json_delete]).

(** The statement of a change, when it has one. *)
Definition statements_of (c : Change) : list string :=
  match dml_statement c with
  | Some (_, sql, _) => [sql]
  | None => []
  end.

(** A primary whose log holds one entry with an LSN text that is not an
    LSN. *)
Definition db_bogus_lsn : Databases :=
  db_with_log [mkDdlRow "bogus" "CREATE TABLE a (id int)"] (fun _ => true).

(** The messages of a stream whose handling returned: those before the
    first one that raised. *)
Fixpoint handled (db : Databases) (msgs : list Message) (st : State)
  : list Message :=
  match msgs with
  | [] => []
  | msg :: rest =>
      match handle_message db msg st with
      | Normal _ s1 => msg :: handled db rest s1
      | Raise _ _ => []
      end
  end.

(** What the sweep sends for the entries it applies. *)
Definition sweep_statements (buffered : list (Z * Change)) : list string :=
  flat_map (fun entry => statements_of (snd entry)) buffered.

(** * Properties *)

(** ** LSN codec *)

Example split_three : Py.split "/" "a/b/c" = ["a"; "b"; "c"].
Proof. reflexivity. Qed.

Example split_none : Py.split "/" "" = [""].
Proof. reflexivity. Qed.

Example int16_samples :
  Py.int16 "16B374D8" = Some 380859608 /\ Py.int16 " -0x_1f " = Some (-31) /\
  Py.int16 "1__0" = None /\ Py.int16 "0x" = None /\ Py.int16 "" = None /\
  Py.int16 "1_" = None /\ Py.int16 "- 1" = None /\ Py.int16 "1g" = None.
Proof. repeat split; reflexivity. Qed.

Example int_to_lsn_sample : int_to_lsn 95622328 = "0/5b314b8".
Proof. reflexivity. Qed.

Example lsn_to_int_sample : lsn_to_int "16/B374D848" = Ok 97500059720.
Proof. reflexivity. Qed.

(** *** Characters *)

Ltac ascii_cases c :=
  destruct c as [[] [] [] [] [] [] [] []]; try reflexivity; try discriminate.

Lemma hex_digit_not_space c d :
  Py.hex_digit_value c = Some d -> Py.is_space c = false.
Proof. ascii_cases c. Qed.

Lemma hex_digit_not_underscore c d :
  Py.hex_digit_value c = Some d -> Ascii.eqb c "_" = false.
Proof. ascii_cases c. Qed.

Lemma hex_digit_not_slash c d :
  Py.hex_digit_value c = Some d -> Ascii.eqb c "/" = false.
Proof. ascii_cases c. Qed.

Lemma hex_digit_not_x c d :
  Py.hex_digit_value c = Some d ->
  (Ascii.eqb c "x" || Ascii.eqb c "X")%bool = false.
Proof. ascii_cases c. Qed.

Lemma hex_digit_not_sign c d :
  Py.hex_digit_value c = Some d -> c <> "+"%char /\ c <> "-"%char.
Proof. intros H; split; intros ->; discriminate H. Qed.

Lemma hex_digit_char_value d :
  0 <= d < 16 -> Py.hex_digit_value (Py.hex_digit_char d) = Some d.
Proof.
  intros Hd.
  assert (Hc : d = 0 \/ d = 1 \/ d = 2 \/ d = 3 \/ d = 4 \/ d = 5 \/ d = 6 \/
               d = 7 \/ d = 8 \/ d = 9 \/ d = 10 \/ d = 11 \/ d = 12 \/
               d = 13 \/ d = 14 \/ d = 15) by lia.
  repeat (destruct Hc as [-> | Hc]; [reflexivity |]).
  subst d; reflexivity.
Qed.

(** *** Reading a string of digits *)

Lemma scan_hex_all_hex s : forall acc,
  all_hex s = true -> Py.scan_hex false acc s = Some (hex_value acc s, "").
Proof.
  induction s as [| c rest IH]; intros acc H; simpl in *.
  - reflexivity.
  - destruct (Py.hex_digit_value c) as [d |] eqn:Hc; [| discriminate].
    rewrite (hex_digit_not_underscore c d Hc). now apply IH.
Qed.

(** [int(s, 16)] reads a strict base-16 numeral as the number it
    denotes. *)
Lemma int16_hex_numeral s :
  is_hex_numeral s = true -> Py.int16 s = Some (hex_value 0 s).
Proof.
  destruct s as [| c rest]; [discriminate |].
  unfold is_hex_numeral. intros Hall.
  assert (Hall' := Hall). simpl in Hall.
  destruct (Py.hex_digit_value c) as [d |] eqn:Hc; [| discriminate].
  destruct (hex_digit_not_sign c d Hc) as [Hplus Hminus].
  unfold Py.int16.
  assert (Hstrip : Py.lstrip (String c rest) = String c rest).
  { simpl. now rewrite (hex_digit_not_space c d Hc). }
  rewrite Hstrip.
  assert (Hsign :
    match String c rest with
    | String "+" r => (1, r)
    | String "-" r => (-1, r)
    | _ => (1, String c rest)
    end = (1, String c rest)).
  { ascii_cases c. }
  rewrite Hsign.
  assert (Hprefix :
    match String c rest with
    | String "0" (String x r) =>
        if (Ascii.eqb x "x" || Ascii.eqb x "X")%bool then
          match r with
          | String "_" r' => r'
          | _ => r
          end
        else String c rest
    | _ => String c rest
    end = String c rest).
  { destruct rest as [| x r].
    - ascii_cases c.
    - simpl in Hall.
      destruct (Py.hex_digit_value x) as [dx |] eqn:Hx; [| discriminate].
      rewrite (hex_digit_not_x x dx Hx). ascii_cases c. }
  rewrite Hprefix.
  rewrite (hex_digit_not_underscore c d Hc), Hc.
  rewrite (scan_hex_all_hex _ 0 Hall'). cbn [Py.lstrip].
  f_equal. apply Z.mul_1_l.
Qed.

(** *** Writing a number in base 16 *)

Lemma hex_digits_all_hex fuel : forall n acc,
  0 <= n -> all_hex acc = true -> all_hex (Py.hex_digits fuel n acc) = true.
Proof.
  induction fuel as [| fuel IH]; intros n acc Hn Hacc; simpl.
  - exact Hacc.
  - assert (Hd : all_hex (String (Py.hex_digit_char (n mod 16)) acc) = true).
    { simpl. rewrite hex_digit_char_value; [exact Hacc |].
      apply Z.mod_pos_bound; lia. }
    destruct (n <? 16); [exact Hd |].
    apply IH; [apply Z.div_pos; lia | exact Hd].
Qed.

Lemma hex_digits_nonempty fuel n acc :
  Py.hex_digits (S fuel) n acc <> "".
Proof.
  revert n acc. induction fuel as [| fuel IH]; intros n acc; simpl.
  - destruct (n <? 16); discriminate.
  - destruct (n <? 16); [discriminate |]. apply IH.
Qed.

Lemma hex_value_digit a d acc :
  0 <= d < 16 ->
  hex_value a (String (Py.hex_digit_char d) acc) = hex_value (16 * a + d) acc.
Proof.
  intros Hd. cbn [hex_value]. now rewrite hex_digit_char_value.
Qed.

Lemma hex_digits_value fuel : forall n acc,
  0 <= n < 2 ^ Z.of_nat (S fuel) ->
  exists k, 0 <= k /\
    forall a, hex_value a (Py.hex_digits (S fuel) n acc)
              = hex_value (a * 16 ^ k + n) acc.
Proof.
  induction fuel as [| fuel IH]; intros n acc Hn.
  - exists 1. split; [lia |]. intros a.
    change (2 ^ Z.of_nat 1) with 2 in Hn.
    cbn [Py.hex_digits].
    replace (n <? 16) with true by (symmetry; apply Z.ltb_lt; lia).
    rewrite hex_value_digit by (apply Z.mod_pos_bound; lia).
    f_equal. rewrite Z.mod_small by lia. lia.
  - cbn [Py.hex_digits].
    destruct (n <? 16) eqn:Hlt.
    + apply Z.ltb_lt in Hlt. exists 1. split; [lia |]. intros a.
      rewrite hex_value_digit by (apply Z.mod_pos_bound; lia).
      f_equal. rewrite Z.mod_small by lia. lia.
    + apply Z.ltb_ge in Hlt.
      assert (Hq : 0 <= n / 16 < 2 ^ Z.of_nat (S fuel)).
      { split; [apply Z.div_pos; lia |].
        apply Z.div_lt_upper_bound; [lia |].
        rewrite (Nat2Z.inj_succ (S fuel)), Z.pow_succ_r in Hn by lia.
        assert (0 < 2 ^ Z.of_nat (S fuel)) by (apply Z.pow_pos_nonneg; lia).
        lia. }
      destruct (IH (n / 16) (String (Py.hex_digit_char (n mod 16)) acc) Hq)
        as (k & Hk & Hval).
      exists (k + 1). split; [lia |]. intros a.
      fold (Py.hex_digits (S fuel)).
      rewrite Hval.
      rewrite hex_value_digit by (apply Z.mod_pos_bound; lia).
      f_equal. rewrite Z.pow_add_r by lia.
      pose proof (Z.div_mod n 16 ltac:(lia)). lia.
Qed.

Lemma hex_nonneg_numeral n :
  0 <= n -> is_hex_numeral (Py.hex_nonneg n) = true.
Proof.
  intros Hn. unfold Py.hex_nonneg, is_hex_numeral.
  destruct (Py.hex_digits _ n "") eqn:E.
  - now apply hex_digits_nonempty in E.
  - rewrite <- E. now apply hex_digits_all_hex.
Qed.

Lemma hex_nonneg_value n :
  0 <= n -> hex_value 0 (Py.hex_nonneg n) = n.
Proof.
  intros Hn. unfold Py.hex_nonneg.
  destruct (hex_digits_value (Z.to_nat (Z.log2 n)) n "") as (k & _ & Hval).
  - split; [exact Hn |].
    rewrite Nat2Z.inj_succ, Z2Nat.id by apply Z.log2_nonneg.
    destruct (Z.eq_dec n 0) as [-> | Hnz]; [reflexivity |].
    apply Z.log2_spec. lia.
  - rewrite Hval. simpl. lia.
Qed.

(** [int(format(n, 'x'), 16) == n] for a natural number. *)
Lemma int16_format_x n :
  0 <= n -> Py.int16 (Py.format_x n) = Some n.
Proof.
  intros Hn. unfold Py.format_x.
  replace (n <? 0) with false by (symmetry; apply Z.ltb_ge; lia).
  rewrite int16_hex_numeral by now apply hex_nonneg_numeral.
  now rewrite hex_nonneg_value.
Qed.

Lemma format_x_all_hex n :
  0 <= n -> all_hex (Py.format_x n) = true.
Proof.
  intros Hn. unfold Py.format_x.
  replace (n <? 0) with false by (symmetry; apply Z.ltb_ge; lia).
  pose proof (hex_nonneg_numeral n Hn) as H. unfold is_hex_numeral in H.
  destruct (Py.hex_nonneg n); [reflexivity | exact H].
Qed.

(** *** Splitting *)

Lemma split_no_sep s :
  all_hex s = true -> Py.split "/" s = [s].
Proof.
  induction s as [| c rest IH]; intros H; simpl in *.
  - reflexivity.
  - destruct (Py.hex_digit_value c) as [d |] eqn:Hc; [| discriminate].
    rewrite (hex_digit_not_slash c d Hc), (IH H). reflexivity.
Qed.

Lemma split_two s t :
  all_hex s = true -> all_hex t = true ->
  Py.split "/" (s ++ "/" ++ t) = [s; t].
Proof.
  intros Hs Ht. induction s as [| c rest IH]; simpl in *.
  - now rewrite (split_no_sep t Ht).
  - destruct (Py.hex_digit_value c) as [d |] eqn:Hc; [| discriminate].
    rewrite (hex_digit_not_slash c d Hc), (IH Hs). reflexivity.
Qed.

(** The shortcut for ["0/0"] agrees with the general path. *)
Lemma lsn_to_int_two_parts s high low h l :
  Py.split "/" s = [high; low] ->
  Py.int16 high = Some h -> Py.int16 low = Some l ->
  lsn_to_int s = Ok (Z.shiftl h 32 + l).
Proof.
  intros Hs Hh Hl. unfold lsn_to_int.
  destruct (String.eqb s "0/0") eqn:E.
  - apply String.eqb_eq in E. subst s.
    cbv in Hs. injection Hs as <- <-.
    cbv in Hh, Hl. injection Hh as <-. injection Hl as <-. reflexivity.
  - now rewrite Hs, Hh, Hl.
Qed.

Lemma lsn_round_trip_nonneg x :
  0 <= x -> lsn_to_int (int_to_lsn x) = Ok x.
Proof.
  intros Hx. unfold int_to_lsn.
  destruct (x =? 0) eqn:E.
  - apply Z.eqb_eq in E. now subst x.
  - assert (Hhigh : 0 <= Z.shiftr x 32) by now apply Z.shiftr_nonneg.
    assert (Hlow : 0 <= Z.land x 4294967295).
    { apply Z.land_nonneg. now left. }
    rewrite (lsn_to_int_two_parts _ (Py.format_x (Z.shiftr x 32))
               (Py.format_x (Z.land x 4294967295))
               (Z.shiftr x 32) (Z.land x 4294967295)).
    + f_equal.
      rewrite Z.shiftl_mul_pow2, Z.shiftr_div_pow2 by lia.
      change 4294967295 with (Z.ones 32).
      rewrite Z.land_ones by lia.
      pose proof (Z.div_mod x (2 ^ 32) ltac:(lia)). lia.
    + apply split_two; now apply format_x_all_hex.
    + now apply int16_format_x.
    + now apply int16_format_x.
Qed.

(** C2. LSN codec round trip: for every LSN [x] of 64 unsigned bits,
    decoding the encoding of [x] gives back [x]; and 0 is encoded as
    ["0/0"]. *)
Theorem lsn_round_trip x :
  0 <= x < 2 ^ 64 ->
  lsn_to_int (int_to_lsn x) = Ok x /\ int_to_lsn 0 = "0/0".
Proof.
  intros [Hx _]. split; [now apply lsn_round_trip_nonneg | reflexivity].
Qed.

Lemma lsn_round_trip_witness :
  lsn_to_int (int_to_lsn 18446744073709551615) = Ok 18446744073709551615
  /\ int_to_lsn 0 = "0/0".
Proof.
  apply (lsn_round_trip 18446744073709551615). vm_compute. split; congruence.
Defined.

(** *** Decoding failures *)

Lemma split_length c s :
  List.length (Py.split c s) = S (count_char c s).
Proof.
  induction s as [| a rest IH]; simpl.
  - reflexivity.
  - destruct (Ascii.eqb a c); simpl.
    + now rewrite IH.
    + destruct (Py.split c rest) as [| hd tl]; simpl in *; [discriminate | exact IH].
Qed.

Lemma split_two_parts s :
  count_char "/" s = 1%nat ->
  exists high low, Py.split "/" s = [high; low].
Proof.
  intros H. pose proof (split_length "/" s) as L. rewrite H in L.
  destruct (Py.split "/" s) as [| high [| low [| x tl]]]; try discriminate.
  now exists high, low.
Qed.

Lemma split_not_two_parts s :
  count_char "/" s <> 1%nat ->
  forall high low, Py.split "/" s <> [high; low].
Proof.
  intros H high low E. pose proof (split_length "/" s) as L.
  rewrite E in L. simpl in L. congruence.
Qed.

(** A strict LSN text is one the decoder reads. *)
Lemma strict_lsn_text_accepted s :
  strict_lsn_text s = true -> accepted_lsn_text s = true.
Proof.
  unfold strict_lsn_text, accepted_lsn_text. intros H.
  apply andb_true_iff in H as [Hc H]. rewrite Hc. simpl.
  destruct (Py.split "/" s) as [| high [| low [| x tl]]]; try discriminate.
  apply andb_true_iff in H as [Hh Hl].
  unfold int16_accepts.
  now rewrite (int16_hex_numeral _ Hh), (int16_hex_numeral _ Hl).
Qed.

(** The decoder returns a value exactly on the texts it accepts. *)
Lemma lsn_to_int_accepts s :
  accepted_lsn_text s = true -> exists x, lsn_to_int s = Ok x.
Proof.
  unfold accepted_lsn_text, int16_accepts. intros H.
  apply andb_true_iff in H as [_ H].
  destruct (Py.split "/" s) as [| high [| low [| x tl]]] eqn:Hs; try discriminate.
  destruct (Py.int16 high) as [h |] eqn:Hh; [| discriminate].
  destruct (Py.int16 low) as [l |] eqn:Hl; [| discriminate].
  eexists. eapply lsn_to_int_two_parts; eassumption.
Qed.

(** C3, as the code has it.  Decoding raises [ValueError] on every text
    that does not contain exactly one [/], or one of whose halves
    [int(_, 16)] rejects. *)
Theorem lsn_to_int_rejects s :
  accepted_lsn_text s = false -> lsn_to_int s = Err ValueError.
Proof.
  unfold accepted_lsn_text, lsn_to_int. intros H.
  destruct (String.eqb s "0/0") eqn:E.
  - apply String.eqb_eq in E. subst s. discriminate H.
  - destruct (Nat.eqb (count_char "/" s) 1) eqn:Hc.
    + simpl in H.
      destruct (Py.split "/" s) as [| high [| low [| x tl]]]; try reflexivity.
      unfold int16_accepts in H.
      destruct (Py.int16 high); [| reflexivity].
      destruct (Py.int16 low); [discriminate | reflexivity].
    + apply Nat.eqb_neq in Hc.
      pose proof (split_not_two_parts s Hc) as Hn.
      destruct (Py.split "/" s) as [| high [| low [| x tl]]]; try reflexivity.
      now contradiction (Hn high low).
Qed.

Lemma lsn_to_int_rejects_witness :
  lsn_to_int "16/B374D848/0" = Err ValueError
  /\ lsn_to_int "16-B374D848" = Err ValueError
  /\ lsn_to_int "16/B374D84G" = Err ValueError
  /\ lsn_to_int "/B374D848" = Err ValueError.
Proof.
  split; [| split; [| split]]; apply lsn_to_int_rejects; reflexivity.
Defined.

(** C3, as stated, fails: a half that is not a base-16 numeral is decoded
    when it is a numeral with a sign, a prefix, blanks or underscores.
    ["-1/0"] is decoded to a negative number. *)
Lemma lsn_to_int_signed_half :
  strict_lsn_text "-1/0" = false /\ lsn_to_int "-1/0" = Ok (-4294967296).
Proof. split; reflexivity. Qed.

Example lsn_to_int_lenient_halves :
  lsn_to_int "0x1/ 2" = Ok 4294967298 /\ lsn_to_int "1_0/+f" = Ok 68719476751.
Proof. split; reflexivity. Qed.

(** ** Running the monad *)

Lemma bind_normal {A B} (c : M A) (k : A -> M B) st a st' :
  c st = Normal a st' -> bind c k st = k a st'.
Proof. unfold bind. now intros ->. Qed.

Lemma bind_raise {A B} (c : M A) (k : A -> M B) st e st' :
  c st = Raise e st' -> bind c k st = Raise e st'.
Proof. unfold bind. now intros ->. Qed.

Lemma bind_assoc {A B C} (c : M A) (k : A -> M B) (h : B -> M C) st :
  bind (bind c k) h st = bind c (fun a => bind (k a) h) st.
Proof. unfold bind. destruct (c st); reflexivity. Qed.

Lemma for_each_app {A} (xs ys : list A) (body : A -> M unit) st :
  for_each (xs ++ ys) body st
  = bind (for_each xs body) (fun _ => for_each ys body) st.
Proof.
  revert st. induction xs as [| x xs IH]; intros st; simpl.
  - reflexivity.
  - rewrite bind_assoc. unfold bind at 1 2.
    destruct (body x st); [apply IH | reflexivity].
Qed.

Lemma trace_emit ev st : trace (emit ev st) = (trace st ++ [ev])%list.
Proof. reflexivity. Qed.

Lemma buffer_emit ev st : BUFFERED_DMLS (emit ev st) = BUFFERED_DMLS st.
Proof. reflexivity. Qed.

Lemma last_cons {A} (l : list A) : forall a d, last (a :: l) d = last l a.
Proof.
  induction l as [| x l IH]; intros a d; [reflexivity |].
  change (last (a :: x :: l) d) with (last (x :: l) d).
  now rewrite !IH.
Qed.

(** ** DDL replay *)

Section Replay.

Variable db : Databases.

(** One step of the loop on an administrative entry. *)
Lemma ddl_loop_skip row rest applied st :
  is_administrative (ddl row) = true ->
  ddl_loop db (row :: rest) applied st
  = ddl_loop db rest (lsn row) (emit (Print (LogSkippingDDL (lsn row))) st).
Proof. intros H. simpl. now rewrite H. Qed.

(** One step on an entry the replica executes. *)
Lemma ddl_loop_apply row rest applied st :
  is_administrative (ddl row) = false ->
  replica_accepts db
    (trace st ++ [Print (LogAttempting (lsn row) (ddl row))]) (ddl row) [] = true ->
  ddl_loop db (row :: rest) applied st
  = ddl_loop db rest (lsn row)
      (emit (Print (LogSuccessfullyApplied (lsn row)))
         (emit (ReplicaExecute (ddl row) [] true)
            (emit (Print (LogAttempting (lsn row) (ddl row))) st))).
Proof.
  intros Hadm Hok. simpl. rewrite Hadm.
  unfold bind, print, try_except, replica_execute, ret.
  rewrite trace_emit, Hok. reflexivity.
Qed.

(** One step on an entry the replica rejects: the loop is left. *)
Lemma ddl_loop_fail row rest applied st :
  is_administrative (ddl row) = false ->
  replica_accepts db
    (trace st ++ [Print (LogAttempting (lsn row) (ddl row))]) (ddl row) [] = false ->
  ddl_loop db (row :: rest) applied st
  = Normal (applied, false)
      (emit (Print (LogErrorApplyingDDL (lsn row) (DatabaseError (ddl row))))
         (emit (ReplicaExecute (ddl row) [] false)
            (emit (Print (LogAttempting (lsn row) (ddl row))) st))).
Proof.
  intros Hadm Hko. simpl. rewrite Hadm.
  unfold bind, print, try_except, replica_execute, ret.
  rewrite trace_emit, Hko. reflexivity.
Qed.

(** The loop never raises. *)
Lemma ddl_loop_returns ddls : forall applied st,
  exists r st', ddl_loop db ddls applied st = Normal r st'.
Proof.
  induction ddls as [| row rest IH]; intros applied st.
  - now exists (applied, true), st.
  - destruct (is_administrative (ddl row)) eqn:Hadm.
    + rewrite ddl_loop_skip by exact Hadm. apply IH.
    + destruct (replica_accepts db
        (trace st ++ [Print (LogAttempting (lsn row) (ddl row))]) (ddl row) [])
        eqn:Hacc.
      * rewrite ddl_loop_apply by assumption. apply IH.
      * rewrite ddl_loop_fail by assumption. eauto.
Qed.

(** The loop on [pre ++ rest] is the loop on [pre], then on [rest] if
    [pre] was gone through without [break]. *)
Lemma ddl_loop_app pre rest : forall applied st,
  ddl_loop db (pre ++ rest) applied st
  = match ddl_loop db pre applied st with
    | Normal (applied', true) st' => ddl_loop db rest applied' st'
    | other => other
    end.
Proof.
  induction pre as [| row pre IH]; intros applied st.
  - reflexivity.
  - rewrite <- app_comm_cons.
    destruct (is_administrative (ddl row)) eqn:Hadm.
    + rewrite !ddl_loop_skip by exact Hadm. apply IH.
    + destruct (replica_accepts db
        (trace st ++ [Print (LogAttempting (lsn row) (ddl row))]) (ddl row) [])
        eqn:Hacc.
      * rewrite !ddl_loop_apply by assumption. apply IH.
      * rewrite !ddl_loop_fail by assumption. reflexivity.
Qed.

(** The loop only ever extends the history, and sends no administrative
    statement to the replica. *)
Lemma ddl_loop_events ddls : forall applied st r st',
  ddl_loop db ddls applied st = Normal r st' ->
  exists evs, trace st' = (trace st ++ evs)%list /\ Forall replay_event evs.
Proof.
  induction ddls as [| row rest IH]; intros applied st r st' H.
  - injection H as _ <-. exists []. split; [now rewrite app_nil_r | constructor].
  - destruct (is_administrative (ddl row)) eqn:Hadm.
    + rewrite ddl_loop_skip in H by exact Hadm.
      apply IH in H as (evs & Ht & Hev). rewrite trace_emit, <- app_assoc in Ht.
      eexists. split; [exact Ht |]. constructor; [exact I | exact Hev].
    + destruct (replica_accepts db
        (trace st ++ [Print (LogAttempting (lsn row) (ddl row))]) (ddl row) [])
        eqn:Hacc.
      * rewrite ddl_loop_apply in H by assumption.
        apply IH in H as (evs & Ht & Hev).
        rewrite !trace_emit, <- !app_assoc in Ht.
        eexists. split; [exact Ht |].
        repeat constructor; [exact Hadm | exact Hev].
      * rewrite ddl_loop_fail in H by assumption. injection H as _ <-.
        rewrite !trace_emit, <- !app_assoc.
        eexists. split; [reflexivity |]. repeat constructor. exact Hadm.
Qed.

(** When the loop runs to its end, the mark is the LSN of the last
    entry, and every entry is done with. *)
Lemma ddl_loop_completed ddls : forall applied st hw st',
  ddl_loop db ddls applied st = Normal (hw, true) st' ->
  hw = last (map lsn ddls) applied /\ Forall (ddl_done (trace st')) ddls.
Proof.
  induction ddls as [| row rest IH]; intros applied st hw st' H.
  - injection H as <- <-. split; [reflexivity | constructor].
  - assert (Hlast : last (map lsn (row :: rest)) applied
                    = last (map lsn rest) (lsn row)) by apply last_cons.
    rewrite Hlast.
    destruct (is_administrative (ddl row)) eqn:Hadm.
    + rewrite ddl_loop_skip in H by exact Hadm.
      apply IH in H as [Hhw Hdone]. split; [exact Hhw |].
      constructor; [now left | exact Hdone].
    + destruct (replica_accepts db
        (trace st ++ [Print (LogAttempting (lsn row) (ddl row))]) (ddl row) [])
        eqn:Hacc.
      * rewrite ddl_loop_apply in H by assumption.
        pose proof (ddl_loop_events _ _ _ _ _ H) as (evs & Ht & _).
        apply IH in H as [Hhw Hdone]. split; [exact Hhw |].
        constructor; [| exact Hdone].
        right. rewrite Ht, !trace_emit. apply in_or_app. left.
        apply in_or_app. left. apply in_or_app. right. now left.
      * rewrite ddl_loop_fail in H by assumption. discriminate H.
Qed.

End Replay.

(** *** Order of LSN texts *)

Lemma lsn_ltb_leb a b : lsn_ltb a b = true -> lsn_leb a b = true.
Proof.
  unfold lsn_ltb, lsn_leb.
  destruct (lsn_to_int a), (lsn_to_int b); try discriminate.
  intros H. apply Z.ltb_lt in H. apply Z.leb_le. lia.
Qed.

Lemma lsn_ltb_leb_trans a b c :
  lsn_ltb a b = true -> lsn_leb b c = true -> lsn_ltb a c = true.
Proof.
  unfold lsn_ltb, lsn_leb.
  destruct (lsn_to_int a), (lsn_to_int b), (lsn_to_int c); try discriminate.
  intros H1 H2. apply Z.ltb_lt in H1. apply Z.leb_le in H2.
  apply Z.ltb_lt. lia.
Qed.

Lemma lsn_leb_ltb_trans a b c :
  lsn_leb a b = true -> lsn_ltb b c = true -> lsn_ltb a c = true.
Proof.
  unfold lsn_ltb, lsn_leb.
  destruct (lsn_to_int a), (lsn_to_int b), (lsn_to_int c); try discriminate.
  intros H1 H2. apply Z.leb_le in H1. apply Z.ltb_lt in H2.
  apply Z.ltb_lt. lia.
Qed.

Lemma lsn_leb_refl_of_ltb a b : lsn_ltb a b = true -> lsn_leb b b = true.
Proof.
  unfold lsn_ltb, lsn_leb.
  destruct (lsn_to_int a), (lsn_to_int b); try discriminate.
  intros _. apply Z.leb_refl.
Qed.

Lemma ascending_from_app pre rest : forall since,
  ascending_from since (pre ++ rest) = true ->
  ascending_from since pre = true
  /\ ascending_from (last (map lsn pre) since) rest = true.
Proof.
  induction pre as [| row pre IH]; intros since H.
  - now split.
  - rewrite <- app_comm_cons in H. simpl in H.
    apply andb_true_iff in H as [Hlt H].
    apply IH in H as [Hpre Hrest].
    change (map lsn (row :: pre)) with (lsn row :: map lsn pre).
    rewrite last_cons. split; [| exact Hrest].
    simpl. now rewrite Hlt, Hpre.
Qed.

(** In an ascending list the last LSN is the highest. *)
Lemma ascending_from_last rows : forall since,
  ascending_from since rows = true ->
  Forall (fun row => lsn_leb (lsn row) (last (map lsn rows) since) = true) rows
  /\ (rows <> [] -> lsn_ltb since (last (map lsn rows) since) = true).
Proof.
  induction rows as [| row rest IH]; intros since H.
  - split; [constructor | congruence].
  - simpl in H. apply andb_true_iff in H as [Hlt H].
    change (map lsn (row :: rest)) with (lsn row :: map lsn rest).
    rewrite last_cons.
    destruct (IH _ H) as [Hall Hne].
    assert (Hrow : lsn_leb (lsn row) (last (map lsn rest) (lsn row)) = true).
    { destruct rest as [| r2 rest'].
      - simpl. eapply lsn_leb_refl_of_ltb; eassumption.
      - apply lsn_ltb_leb, Hne. discriminate. }
    split.
    + constructor; assumption.
    + intros _. eapply lsn_ltb_leb_trans; eassumption.
Qed.

(** ** C4 and C5: the replayer *)

Section ReplayClaims.

Variable db : Databases.

(** Fail-stop, on the loop: when the entries of [pre] are gone through
    and the next one is rejected by the replica, the loop is left with
    the mark reached after [pre]; nothing of [post] is attempted. *)
Lemma ddl_loop_fail_stop (pre : list DdlRow) failed post since st hw st1 :
  ddl_loop db pre since st = Normal (hw, true) st1 ->
  is_administrative (ddl failed) = false ->
  replica_accepts db
    (trace st1 ++ [Print (LogAttempting (lsn failed) (ddl failed))])
    (ddl failed) [] = false ->
  ddl_loop db (pre ++ failed :: post)%list since st
  = Normal (hw, false)
      (emit (Print (LogErrorApplyingDDL (lsn failed)
                      (DatabaseError (ddl failed))))
         (emit (ReplicaExecute (ddl failed) [] false)
            (emit (Print (LogAttempting (lsn failed) (ddl failed))) st1))).
Proof.
  intros Hpre Hadm Hko.
  rewrite ddl_loop_app, Hpre. now apply ddl_loop_fail.
Qed.

(** C4. DDL replay is fail-stop.  The primary returns the entries
    [pre ++ failed :: post] in ascending LSN order; the entries of [pre]
    are gone through, and the replica rejects [failed].  Then
    [poll_and_apply_ddls] stops there: the history ends with the failed
    execution, so no entry of [post] is attempted; it returns the LSN of
    the last entry of [pre] (the starting LSN when [pre] is empty), every
    entry of [pre] was executed successfully or skipped as
    administrative, none of them has a higher LSN than the one returned,
    and the LSN returned is below the LSN of the failed entry. *)
Theorem ddl_replay_fail_stop since st (pre : list DdlRow) failed post hw st1 :
  let st0 :=
    emit (Print (LogFound (List.length (pre ++ failed :: post)%list)))
      (emit (PrimaryExecute DDL_LOG_QUERY since true)
         (emit (Print (LogExecutingQuery since))
            (emit (Print (LogPolling since)) st))) in
  primary_ddl_log db
    (trace (emit (Print (LogExecutingQuery since))
              (emit (Print (LogPolling since)) st))) since
    = Some (pre ++ failed :: post)%list ->
  ascending_from since (pre ++ failed :: post)%list = true ->
  ddl_loop db pre since st0 = Normal (hw, true) st1 ->
  is_administrative (ddl failed) = false ->
  replica_accepts db
    (trace st1 ++ [Print (LogAttempting (lsn failed) (ddl failed))])
    (ddl failed) [] = false ->
  poll_and_apply_ddls db since st
  = Normal hw
      (emit (Print (LogErrorApplyingDDL (lsn failed)
                      (DatabaseError (ddl failed))))
         (emit (ReplicaExecute (ddl failed) [] false)
            (emit (Print (LogAttempting (lsn failed) (ddl failed))) st1)))
  /\ hw = last (map lsn pre) since
  /\ Forall (ddl_done (trace st1)) pre
  /\ Forall (fun row => lsn_leb (lsn row) hw = true) pre
  /\ lsn_ltb hw (lsn failed) = true.
Proof.
  intros st0 Hfetch Hasc Hpre Hadm Hko.
  destruct (ddl_loop_completed db _ _ _ _ _ Hpre) as [Hhw Hdone].
  apply ascending_from_app in Hasc as [Hasc_pre Hasc_rest].
  split; [| split; [exact Hhw | split; [exact Hdone | split]]].
  - unfold poll_and_apply_ddls, bind, print, primary_fetch_ddls.
    rewrite Hfetch.
    fold st0.
    rewrite (ddl_loop_fail_stop pre failed post since st0 hw st1 Hpre Hadm Hko).
    reflexivity.
  - rewrite Hhw. now apply ascending_from_last.
  - rewrite Hhw. simpl in Hasc_rest.
    now apply andb_true_iff in Hasc_rest as [Hlt _].
Qed.

(** C5. Administrative statements are skipped and counted.  When the
    replay reaches an entry whose statement mentions the DDL-log table
    or a publication, it prints one line and goes on with the entries
    after it from the LSN of that entry, the value the mark takes after
    a successful execution ([ddl_loop_apply]); if the entry is the last
    one, its LSN is the mark returned.  And in the whole replay no event
    of the history added by the loop is an execution of that statement. *)
Theorem administrative_ddl_skipped (pre : list DdlRow) row post since st hw st1 :
  ddl_loop db pre since st = Normal (hw, true) st1 ->
  is_administrative (ddl row) = true ->
  let st2 := emit (Print (LogSkippingDDL (lsn row))) st1 in
  ddl_loop db (pre ++ row :: post)%list since st
  = ddl_loop db post (lsn row) st2
  /\ ddl_loop db (pre ++ [row])%list since st = Normal (lsn row, true) st2
  /\ exists r st' evs,
       ddl_loop db (pre ++ row :: post)%list since st = Normal r st'
       /\ trace st' = (trace st ++ evs)%list
       /\ forall params ok, ~ In (ReplicaExecute (ddl row) params ok) evs.
Proof.
  intros Hpre Hadm st2.
  assert (Hstep : forall rest,
            ddl_loop db (pre ++ row :: rest)%list since st
            = ddl_loop db rest (lsn row) st2).
  { intros rest. rewrite ddl_loop_app, Hpre. now apply ddl_loop_skip. }
  split; [apply Hstep | split; [apply (Hstep []) |]].
  destruct (ddl_loop_returns db (pre ++ row :: post)%list since st)
    as (r & st' & Hrun).
  destruct (ddl_loop_events db _ _ _ _ _ Hrun) as (evs & Ht & Hev).
  exists r, st', evs. split; [exact Hrun | split; [exact Ht |]].
  intros params ok Hin.
  rewrite Forall_forall in Hev. specialize (Hev _ Hin). simpl in Hev.
  congruence.
Qed.

End ReplayClaims.

Lemma ddl_replay_fail_stop_witness :
  let failed := mkDdlRow "0/9" "CREATE TABLE b (id int REFERENCES missing)" in
  let st1 :=
    state_of
      (ddl_loop db_replay (firstn 2 replay_rows) "0/0"
         (emit (Print (LogFound 4))
            (emit (PrimaryExecute DDL_LOG_QUERY "0/0" true)
               (emit (Print (LogExecutingQuery "0/0"))
                  (emit (Print (LogPolling "0/0")) initial_state))))) in
  poll_and_apply_ddls db_replay "0/0" initial_state
  = Normal "0/7"
      (emit (Print (LogErrorApplyingDDL (lsn failed)
                      (DatabaseError (ddl failed))))
         (emit (ReplicaExecute (ddl failed) [] false)
            (emit (Print (LogAttempting (lsn failed) (ddl failed))) st1)))
  /\ "0/7" = last (map lsn (firstn 2 replay_rows)) "0/0"
  /\ Forall (ddl_done (trace st1)) (firstn 2 replay_rows)
  /\ Forall (fun row => lsn_leb (lsn row) "0/7" = true) (firstn 2 replay_rows)
  /\ lsn_ltb "0/7" (lsn failed) = true.
Proof.
  intros failed st1.
  apply (ddl_replay_fail_stop db_replay "0/0" initial_state
           (firstn 2 replay_rows) failed
           [mkDdlRow "0/B" "CREATE TABLE c (id int)"] "0/7" st1);
    reflexivity.
Defined.

Lemma administrative_ddl_skipped_witness :
  let row := mkDdlRow "0/7" "ALTER PUBLICATION translicate_pub ADD TABLE a" in
  let pre := firstn 1 replay_rows in
  let post := skipn 2 replay_rows in
  let st2 :=
    emit (Print (LogSkippingDDL (lsn row)))
      (state_of (ddl_loop db_replay pre "0/0" initial_state)) in
  ddl_loop db_replay (pre ++ row :: post)%list "0/0" initial_state
  = ddl_loop db_replay post (lsn row) st2
  /\ ddl_loop db_replay (pre ++ [row])%list "0/0" initial_state
     = Normal (lsn row, true) st2
  /\ exists r st' evs,
       ddl_loop db_replay (pre ++ row :: post)%list "0/0" initial_state
       = Normal r st'
       /\ trace st' = (trace initial_state ++ evs)%list
       /\ forall params ok, ~ In (ReplicaExecute (ddl row) params ok) evs.
Proof.
  intros row pre post st2.
  apply (administrative_ddl_skipped db_replay pre row post "0/0"
           initial_state "0/5"
           (state_of (ddl_loop db_replay pre "0/0" initial_state)));
    reflexivity.
Defined.

Example administrative_statements :
  is_administrative "CREATE TABLE translicate_ddl_log (lsn pg_lsn)" = true
  /\ is_administrative "Alter Publication p Add Table t" = true
  /\ is_administrative "CREATE TABLE t (id int)" = false.
Proof. repeat split; reflexivity. Qed.

(** ** The DML applier *)

Example insert_translation :
  dml_statement insert_change
  = Some (LogApplyingInsert "INSERT INTO t (id, name) VALUES (%s, %s)"
                            [VInt 1; VStr "a"],
          "INSERT INTO t (id, name) VALUES (%s, %s)", [VInt 1; VStr "a"]).
Proof. reflexivity. Qed.

Example update_translation :
  dml_statement update_change
  = Some (LogApplyingUpdate "UPDATE t SET name = %s WHERE id = %s"
                            [VStr "b"; VInt 1],
          "UPDATE t SET name = %s WHERE id = %s", [VStr "b"; VInt 1]).
Proof. reflexivity. Qed.

Example delete_translation :
  dml_statement delete_change
  = Some (LogApplyingDelete "DELETE FROM t WHERE id = %s" [VInt 1],
          "DELETE FROM t WHERE id = %s", [VInt 1]).
Proof. reflexivity. Qed.

Section Applier.

Variable db : Databases.

(** What [apply_dml] does with a change that translates to a statement:
    it prints it, executes it once, and prints the error if the replica
    rejects it; it returns normally either way. *)
Lemma apply_dml_statement c line sql params st :
  dml_statement c = Some (line, sql, params) ->
  apply_dml db c st
  = if replica_accepts db (trace st ++ [Print line]) sql params
    then Normal tt (emit (ReplicaExecute sql params true) (emit (Print line) st))
    else Normal tt
           (emit (Print (LogErrorApplyingDML (DatabaseError sql)))
              (emit (ReplicaExecute sql params false) (emit (Print line) st))).
Proof.
  unfold dml_statement, apply_dml.
  destruct (table c) as [t |]; [| discriminate].
  destruct (columnnames c) as [cols |]; [| discriminate].
  destruct (columnvalues c) as [vals |]; [| discriminate].
  destruct (kind c) as [op |]; [| discriminate].
  cbn [getitem]. unfold bind at 1 2 3 4. unfold ret at 1 2 3 4.
  destruct (String.eqb op "insert").
  - intros H. injection H as <- <- <-.
    unfold try_except, bind, print, replica_execute. rewrite trace_emit.
    now destruct (replica_accepts db _ _ _).
  - destruct (oldkeys c) as [ok |]; [| discriminate].
    destruct (keyvalues ok) as [old |] eqn:Hold; [| discriminate].
    destruct (keynames ok) as [names |] eqn:Hnames; [| discriminate].
    destruct (String.eqb op "update").
    + intros H. injection H as <- <- <-.
      unfold try_except, bind, getitem, ret, print, replica_execute.
      rewrite Hold, Hnames, trace_emit.
      now destruct (replica_accepts db _ _ _).
    + destruct (String.eqb op "delete"); [| discriminate].
      intros H. injection H as <- <- <-.
      unfold try_except, bind, getitem, ret, print, replica_execute.
      rewrite Hold, Hnames, trace_emit.
      now destruct (replica_accepts db _ _ _).
Qed.

(** With its four top-level keys present, [apply_dml] never raises: what
    happens inside its [try] is caught. *)
Lemma apply_dml_returns c st :
  table c <> None -> columnnames c <> None ->
  columnvalues c <> None -> kind c <> None ->
  exists st', apply_dml db c st = Normal tt st'.
Proof.
  unfold apply_dml. intros Ht Hc Hv Hk.
  destruct (table c) as [t |]; [| congruence].
  destruct (columnnames c) as [cols |]; [| congruence].
  destruct (columnvalues c) as [vals |]; [| congruence].
  destruct (kind c) as [op |]; [| congruence].
  cbn [getitem]. unfold bind at 1 2 3 4. unfold ret at 1 2 3 4.
  unfold try_except.
  match goal with
  | |- exists st', match ?body st with _ => _ end = _ =>
      destruct (body st) as [[] st1 | e st1]
  end.
  - now exists st1.
  - unfold print. eauto.
Qed.

(** A missing top-level key is the one thing [apply_dml] lets through. *)
Lemma apply_dml_raises c st e st' :
  apply_dml db c st = Raise e st' ->
  st' = st /\
  (table c = None \/ columnnames c = None \/ columnvalues c = None
   \/ kind c = None).
Proof.
  unfold apply_dml.
  destruct (table c) as [t |]; [| intros H; injection H as _ <-; auto].
  destruct (columnnames c) as [cols |]; [| intros H; injection H as _ <-; auto].
  destruct (columnvalues c) as [vals |]; [| intros H; injection H as _ <-; auto].
  destruct (kind c) as [op |]; [| intros H; injection H as _ <-; auto 6].
  cbn [getitem]. unfold bind at 1 2 3 4. unfold ret at 1 2 3 4.
  unfold try_except.
  match goal with
  | |- match ?body st with _ => _ end = _ -> _ =>
      destruct (body st) as [[] st1 | e1 st1]
  end; discriminate.
Qed.


(** The body of the loop over the changes never raises on a change that
    has its four top-level keys. *)
Lemma process_change_returns msg c st :
  table c <> None -> columnnames c <> None ->
  columnvalues c <> None -> kind c <> None ->
  exists st', process_change db msg c st = Normal tt st'.
Proof.
  intros Ht Hc Hv Hk. unfold process_change.
  destruct (match table c with
            | Some t => String.eqb t "translicate_ddl_log"
            | None => false
            end).
  - unfold print. eauto.
  - unfold bind, print, get_state, set_buffer.
    destruct (data_start msg >? _).
    + eauto.
    + now apply apply_dml_returns.
Qed.


(** When the old-key lists are present and the list of names is empty,
    the applier does not refuse the change: a statement whose [WHERE]
    clause is empty is sent to the replica. *)
Lemma apply_dml_empty_old_keys c st t cols vals op old :
  table c = Some t -> columnnames c = Some cols ->
  columnvalues c = Some vals -> kind c = Some op ->
  op = "update" \/ op = "delete" ->
  oldkeys c = Some (mkOldKeys (Some []) (Some old)) ->
  exists line params ok rest,
    trace (state_of (apply_dml db c st))
    = (trace st ++
       Print line
       :: ReplicaExecute
            (if String.eqb op "update" then update_sql t cols []
             else delete_sql t [])
            params ok
       :: rest)%list.
Proof.
  intros Ht Hc Hv Hk Hop Hold.
  assert (Hstmt : exists line params,
    dml_statement c
    = Some (line,
            if String.eqb op "update" then update_sql t cols []
            else delete_sql t [],
            params)).
  { unfold dml_statement. rewrite Ht, Hc, Hv, Hk, Hold. cbn [keyvalues keynames].
    destruct Hop as [-> | ->]; cbn; eauto. }
  destruct Hstmt as (line & params & Hstmt).
  rewrite (apply_dml_statement c line _ params st Hstmt).
  exists line, params.
  destruct (replica_accepts db _ _ _); cbn [state_of]; rewrite !trace_emit.
  - exists true, []. now rewrite <- app_assoc.
  - exists false, [Print (LogErrorApplyingDML
                            (DatabaseError
                               (if String.eqb op "update"
                                then update_sql t cols []
                                else delete_sql t [])))].
    now rewrite <- !app_assoc.
Qed.

(** C6, as the code has it.  For an update or a delete that has its
    four top-level keys and whose old-key column list is absent (no
    [oldkeys] entry, or no [keynames] in it), the [KeyError] of the
    lookup is caught and printed as a DML error; [apply_dml] returns
    normally and nothing is sent to the replica. *)
Theorem apply_dml_missing_old_keys c st t cols vals op :
  table c = Some t -> columnnames c = Some cols ->
  columnvalues c = Some vals -> kind c = Some op ->
  op = "update" \/ op = "delete" ->
  old_key_names c = None ->
  exists k,
    apply_dml db c st
    = Normal tt (emit (Print (LogErrorApplyingDML (KeyError k))) st).
Proof.
  intros Ht Hc Hv Hk Hop Hnone. unfold apply_dml. rewrite Ht, Hc, Hv, Hk.
  cbn [getitem]. unfold bind at 1 2 3 4. unfold ret at 1 2 3 4.
  unfold old_key_names in Hnone.
  destruct Hop as [-> | ->];
    change (String.eqb "update" "insert") with false;
    change (String.eqb "update" "update") with true;
    change (String.eqb "delete" "insert") with false;
    change (String.eqb "delete" "update") with false;
    change (String.eqb "delete" "delete") with true;
    cbv iota;
    unfold try_except, bind, getitem, ret, raise, print;
    (destruct (oldkeys c) as [ok |]; [| now exists "oldkeys"]);
    (destruct (keyvalues ok); [| now exists "keyvalues"]);
    rewrite Hnone; now exists "keynames".
Qed.

End Applier.


Example dml_failure_run :
  apply_dml db_reject_all insert_change initial_state
  = Normal tt
      (mkState "0/0" 0 []
         [Print (LogApplyingInsert "INSERT INTO t (id, name) VALUES (%s, %s)"
                                   [VInt 1; VStr "a"]);
          ReplicaExecute "INSERT INTO t (id, name) VALUES (%s, %s)"
                         [VInt 1; VStr "a"] false;
          Print (LogErrorApplyingDML
                   (DatabaseError "INSERT INTO t (id, name) VALUES (%s, %s)"))]).
Proof. reflexivity. Qed.

Lemma apply_dml_missing_old_keys_witness :
  exists k,
    apply_dml db_quiet update_without_oldkeys initial_state
    = Normal tt (emit (Print (LogErrorApplyingDML (KeyError k))) initial_state).
Proof.
  apply (apply_dml_missing_old_keys db_quiet update_without_oldkeys
           initial_state "t" ["name"] [VStr "b"] "update");
    try reflexivity.
  now left.
Defined.

(** C6, as stated, fails: a delete whose old-key lists are empty is not
    refused by the applier.  The statement with the empty [WHERE] clause
    is sent to the replica, whether the replica then accepts it or not. *)
Lemma delete_with_empty_keys_is_executed :
  old_key_names delete_with_empty_keys = Some []
  /\ apply_dml db_quiet delete_with_empty_keys initial_state
     = Normal tt
         (mkState "0/0" 0 []
            [Print (LogApplyingDelete "DELETE FROM t WHERE " []);
             ReplicaExecute "DELETE FROM t WHERE " [] true])
  /\ apply_dml db_reject_all delete_with_empty_keys initial_state
     = Normal tt
         (mkState "0/0" 0 []
            [Print (LogApplyingDelete "DELETE FROM t WHERE " []);
             ReplicaExecute "DELETE FROM t WHERE " [] false;
             Print (LogErrorApplyingDML (DatabaseError "DELETE FROM t WHERE "))]).
Proof. repeat split; reflexivity. Qed.

Example update_without_oldkeys_run :
  apply_dml db_quiet update_without_oldkeys initial_state
  = Normal tt
      (mkState "0/0" 0 [] [Print (LogErrorApplyingDML (KeyError "oldkeys"))]).
Proof. reflexivity. Qed.

(** ** The message handler *)

Lemma bind_inv_normal {A B} (c : M A) (k : A -> M B) st b st' :
  bind c k st = Normal b st' ->
  exists a s1, c st = Normal a s1 /\ k a s1 = Normal b st'.
Proof.
  unfold bind. destruct (c st) as [a s1 | e s1]; [eauto | discriminate].
Qed.

(** *** What leaves the buffer alone *)

Lemma keeps_ret {A} (a : A) : keeps_buffer (ret a).
Proof. now intros st. Qed.

Lemma keeps_raise {A} e : keeps_buffer (@raise A e).
Proof. now intros st. Qed.

Lemma keeps_print line : keeps_buffer (print line).
Proof. now intros st. Qed.

Lemma keeps_bind {A B} (c : M A) (k : A -> M B) :
  keeps_buffer c -> (forall a, keeps_buffer (k a)) -> keeps_buffer (bind c k).
Proof.
  intros Hc Hk st. unfold bind. specialize (Hc st).
  destruct (c st) as [a s1 | e s1]; simpl in *.
  - now rewrite Hk.
  - exact Hc.
Qed.

Lemma keeps_try {A} (body : M A) handler :
  keeps_buffer body -> (forall e, keeps_buffer (handler e)) ->
  keeps_buffer (try_except body handler).
Proof.
  intros Hb Hh st. unfold try_except. specialize (Hb st).
  destruct (body st) as [a s1 | e s1]; simpl in *.
  - exact Hb.
  - now rewrite Hh.
Qed.

Lemma keeps_getitem {A} key (field : option A) : keeps_buffer (getitem key field).
Proof. destruct field; [apply keeps_ret | apply keeps_raise]. Qed.

Lemma keeps_for_each {A} (xs : list A) body :
  (forall x, keeps_buffer (body x)) -> keeps_buffer (for_each xs body).
Proof.
  intros Hb. induction xs as [| x xs IH]; simpl.
  - apply keeps_ret.
  - apply keeps_bind; [apply Hb | intros _; exact IH].
Qed.

Lemma keeps_lift_result {A} (r : Result A) : keeps_buffer (lift_result r).
Proof. destruct r; [apply keeps_ret | apply keeps_raise]. Qed.

Lemma keeps_set_applied_str s : keeps_buffer (set_applied_str s).
Proof. now intros st. Qed.

Lemma keeps_set_applied_int i : keeps_buffer (set_applied_int i).
Proof. now intros st. Qed.

Lemma keeps_send_feedback l : keeps_buffer (send_feedback l).
Proof. now intros st. Qed.

Lemma keeps_get_state : keeps_buffer get_state.
Proof. now intros st. Qed.

Create HintDb keeps.
#[export] Hint Resolve keeps_ret keeps_raise keeps_print keeps_getitem
  keeps_lift_result keeps_set_applied_str keeps_set_applied_int
  keeps_send_feedback keeps_get_state : keeps.

Ltac keeps :=
  repeat first
    [ progress auto with keeps
    | apply keeps_bind; [| intros ?]
    | apply keeps_try; [| intros ?]
    | apply keeps_for_each; intros ?
    | match goal with
      | |- keeps_buffer (if ?b then _ else _) => destruct b
      | |- keeps_buffer (match ?x with _ => _ end) => destruct x
      end ].

(** *** What only appends to the history *)

Lemma ext_ret {A} (a : A) : extends_trace (ret a).
Proof. intros st. exists []. simpl. now rewrite app_nil_r. Qed.

Lemma ext_raise {A} e : extends_trace (@raise A e).
Proof. intros st. exists []. simpl. now rewrite app_nil_r. Qed.

Lemma ext_print line : extends_trace (print line).
Proof. intros st. now exists [Print line]. Qed.

Lemma ext_bind {A B} (c : M A) (k : A -> M B) :
  extends_trace c -> (forall a, extends_trace (k a)) -> extends_trace (bind c k).
Proof.
  intros Hc Hk st. unfold bind. destruct (Hc st) as (evs & He).
  destruct (c st) as [a s1 | e s1]; simpl in *.
  - destruct (Hk a s1) as (evs' & He'). exists (evs ++ evs')%list.
    now rewrite He', He, app_assoc.
  - now exists evs.
Qed.

Lemma ext_try {A} (body : M A) handler :
  extends_trace body -> (forall e, extends_trace (handler e)) ->
  extends_trace (try_except body handler).
Proof.
  intros Hb Hh st. unfold try_except. destruct (Hb st) as (evs & He).
  destruct (body st) as [a s1 | e s1]; simpl in *.
  - now exists evs.
  - destruct (Hh e s1) as (evs' & He'). exists (evs ++ evs')%list.
    now rewrite He', He, app_assoc.
Qed.

Lemma ext_getitem {A} key (field : option A) : extends_trace (getitem key field).
Proof. destruct field; [apply ext_ret | apply ext_raise]. Qed.

Lemma ext_for_each {A} (xs : list A) body :
  (forall x, extends_trace (body x)) -> extends_trace (for_each xs body).
Proof.
  intros Hb. induction xs as [| x xs IH]; simpl.
  - apply ext_ret.
  - apply ext_bind; [apply Hb | intros _; exact IH].
Qed.

Lemma ext_lift_result {A} (r : Result A) : extends_trace (lift_result r).
Proof. destruct r; [apply ext_ret | apply ext_raise]. Qed.

Lemma ext_set_applied_str s : extends_trace (set_applied_str s).
Proof. intros st. exists []. simpl. now rewrite app_nil_r. Qed.

Lemma ext_set_applied_int i : extends_trace (set_applied_int i).
Proof. intros st. exists []. simpl. now rewrite app_nil_r. Qed.

Lemma ext_set_buffer b : extends_trace (set_buffer b).
Proof. intros st. exists []. simpl. now rewrite app_nil_r. Qed.

Lemma ext_get_state : extends_trace get_state.
Proof. intros st. exists []. simpl. now rewrite app_nil_r. Qed.

Lemma ext_send_feedback l : extends_trace (send_feedback l).
Proof. intros st. now exists [SendFeedback l]. Qed.

Create HintDb ext.
#[export] Hint Resolve ext_ret ext_raise ext_print ext_getitem
  ext_lift_result ext_set_applied_str ext_set_applied_int ext_set_buffer
  ext_get_state ext_send_feedback : ext.

Ltac extends :=
  repeat first
    [ progress auto with ext
    | apply ext_bind; [| intros ?]
    | apply ext_try; [| intros ?]
    | apply ext_for_each; intros ?
    | match goal with
      | |- extends_trace (if ?b then _ else _) => destruct b
      | |- extends_trace (match ?x with _ => _ end) => destruct x
      end ].

Section Handler.

Variable db : Databases.

Lemma keeps_replica_execute sql params :
  keeps_buffer (replica_execute db sql params).
Proof.
  intros st. unfold replica_execute. now destruct (replica_accepts db _ _ _).
Qed.

Lemma keeps_primary_fetch_ddls since :
  keeps_buffer (primary_fetch_ddls db since).
Proof.
  intros st. unfold primary_fetch_ddls. now destruct (primary_ddl_log db _ _).
Qed.

Lemma keeps_replica_fetch_sequences :
  keeps_buffer (replica_fetch_sequences db).
Proof. now intros st. Qed.

Hint Resolve keeps_replica_execute keeps_primary_fetch_ddls
  keeps_replica_fetch_sequences : keeps.

Lemma keeps_apply_dml c : keeps_buffer (apply_dml db c).
Proof. unfold apply_dml. keeps. Qed.

Lemma keeps_ddl_loop ddls : forall applied,
  keeps_buffer (ddl_loop db ddls applied).
Proof.
  induction ddls as [| row rest IH]; intros applied; simpl.
  - apply keeps_ret.
  - destruct (is_administrative (ddl row)).
    + apply keeps_bind; [apply keeps_print | intros _; apply IH].
    + apply keeps_bind; [apply keeps_print | intros _].
      apply keeps_bind; [keeps | intros [|]; [apply IH | apply keeps_ret]].
Qed.

Lemma keeps_poll_and_apply_ddls since :
  keeps_buffer (poll_and_apply_ddls db since).
Proof.
  unfold poll_and_apply_ddls. keeps. apply keeps_ddl_loop.
Qed.

Hint Resolve keeps_apply_dml keeps_ddl_loop keeps_poll_and_apply_ddls : keeps.

Lemma keeps_poll_phase msg : keeps_buffer (poll_phase db msg).
Proof. unfold poll_phase. keeps. Qed.

Lemma keeps_sync_sequences : keeps_buffer (sync_sequences db).
Proof. unfold sync_sequences, sync_one. keeps. Qed.

Lemma keeps_sync_phase msg : keeps_buffer (sync_phase db msg).
Proof.
  unfold sync_phase. destruct (changes_of msg); [apply keeps_ret |].
  apply keeps_bind; [apply keeps_print | intros _; apply keeps_sync_sequences].
Qed.

Lemma ext_replica_execute sql params :
  extends_trace (replica_execute db sql params).
Proof.
  intros st. unfold replica_execute.
  destruct (replica_accepts db _ _ _); eexists; reflexivity.
Qed.

Lemma ext_primary_fetch_ddls since :
  extends_trace (primary_fetch_ddls db since).
Proof.
  intros st. unfold primary_fetch_ddls.
  destruct (primary_ddl_log db _ _); eexists; reflexivity.
Qed.

Lemma ext_replica_fetch_sequences :
  extends_trace (replica_fetch_sequences db).
Proof. intros st. exists []. simpl. now rewrite app_nil_r. Qed.

Hint Resolve ext_replica_execute ext_primary_fetch_ddls
  ext_replica_fetch_sequences : ext.

Lemma ext_apply_dml c : extends_trace (apply_dml db c).
Proof. unfold apply_dml. extends. Qed.

Lemma ext_sync_sequences : extends_trace (sync_sequences db).
Proof. unfold sync_sequences, sync_one. extends. Qed.

(** A computation that keeps the buffer and ends normally. *)
Lemma keeps_normal {A} (c : M A) st a st' :
  keeps_buffer c -> c st = Normal a st' ->
  BUFFERED_DMLS st' = BUFFERED_DMLS st.
Proof. intros Hk Hc. specialize (Hk st). now rewrite Hc in Hk. Qed.

End Handler.

(** *** The buffer across a message *)

Section Buffer.

Variable db : Databases.

Lemma process_change_buffer msg c st st' :
  process_change db msg c st = Normal tt st' ->
  BUFFERED_DMLS st' = BUFFERED_DMLS st
  \/ BUFFERED_DMLS st' = (BUFFERED_DMLS st ++ [(data_start msg, c)])%list.
Proof.
  unfold process_change.
  destruct (match table c with
            | Some t => String.eqb t "translicate_ddl_log"
            | None => false
            end).
  - intros H. injection H as <-. now left.
  - unfold bind at 1 2. unfold print at 1. unfold get_state.
    destruct (data_start msg >? _).
    + intros H. injection H as <-. now right.
    + intros H. left.
      apply bind_inv_normal in H as ([] & s1 & Hp & Ha).
      injection Hp as <-.
      now rewrite (keeps_normal _ _ _ _ (keeps_apply_dml db c) Ha).
Qed.

Lemma process_changes_buffer_upto msg cs : forall st st',
  buffer_upto (data_start msg) st ->
  for_each cs (process_change db msg) st = Normal tt st' ->
  buffer_upto (data_start msg) st'.
Proof.
  induction cs as [| c cs IH]; intros st st' Hup H.
  - injection H as <-. exact Hup.
  - simpl in H. apply bind_inv_normal in H as ([] & s1 & Hc & Hrest).
    apply (IH s1); [| exact Hrest].
    unfold buffer_upto in *.
    destruct (process_change_buffer _ _ _ _ Hc) as [-> | ->]; [exact Hup |].
    apply Forall_app. split; [exact Hup |]. constructor; [simpl; lia | constructor].
Qed.

(** What the sweep loop returns: the entries kept so far, then those of
    the buffer that are after the message. *)
Lemma sweep_loop_still msg buffered : forall still st r st',
  sweep_loop db msg buffered still st = Normal r st' ->
  r = (still ++ kept_by_sweep msg buffered)%list
  /\ BUFFERED_DMLS st' = BUFFERED_DMLS st.
Proof.
  induction buffered as [| [l c] rest IH]; intros still st r st' H.
  - injection H as <- <-. split; [now rewrite app_nil_r | reflexivity].
  - cbn [sweep_loop] in H. unfold kept_by_sweep. cbn [filter fst].
    destruct (l <=? data_start msg); cbn [negb].
    + apply bind_inv_normal in H as ([] & s1 & Hp & H).
      injection Hp as <-.
      apply bind_inv_normal in H as ([] & s2 & Ha & H).
      apply IH in H as [-> Hb]. split; [reflexivity |].
      rewrite Hb. now rewrite (keeps_normal _ _ _ _ (keeps_apply_dml db c) Ha).
    + apply IH in H as [-> Hb]. split; [| exact Hb].
      now rewrite <- app_assoc.
Qed.

Lemma kept_by_sweep_upto msg buffered :
  Forall (fun entry : Z * Change => fst entry <= data_start msg) buffered ->
  kept_by_sweep msg buffered = [].
Proof.
  unfold kept_by_sweep. induction 1 as [| [l c] rest Hl _ IH]; [reflexivity |].
  cbn [filter fst]. simpl in Hl.
  replace (l <=? data_start msg) with true by (symmetry; now apply Z.leb_le).
  exact IH.
Qed.

(** The sweep replaces the buffer by what it keeps. *)
Lemma sweep_phase_buffer msg st st' :
  sweep_phase db msg st = Normal tt st' ->
  BUFFERED_DMLS st' = kept_by_sweep msg (BUFFERED_DMLS st).
Proof.
  unfold sweep_phase. unfold bind at 1. unfold get_state.
  destruct (BUFFERED_DMLS st) as [| entry rest] eqn:Hbuf.
  - intros H. injection H as <-. now rewrite Hbuf.
  - intros H.
    apply bind_inv_normal in H as ([] & s1 & Hp & H). injection Hp as <-.
    apply bind_inv_normal in H as (still & s2 & Hloop & H).
    apply sweep_loop_still in Hloop as [-> _].
    apply bind_inv_normal in H as ([] & s3 & Hset & H).
    injection Hset as <-. injection H as <-. reflexivity.
Qed.

(** One message: if nothing in the buffer is after the message, the
    buffer is empty when the handler returns. *)
Lemma handle_message_drains msg st st' :
  buffer_upto (data_start msg) st ->
  handle_message db msg st = Normal tt st' ->
  BUFFERED_DMLS st' = [].
Proof.
  intros Hup H. unfold handle_message in H.
  apply bind_inv_normal in H as ([] & s1 & Hpoll & H).
  apply bind_inv_normal in H as ([] & s2 & Hprint & H).
  apply bind_inv_normal in H as ([] & s3 & Hloop & H).
  apply bind_inv_normal in H as ([] & s4 & Hsweep & H).
  apply bind_inv_normal in H as ([] & s5 & Hsync & Hfb).
  injection Hfb as <-. injection Hprint as <-.
  rewrite buffer_emit.
  rewrite (keeps_normal _ _ _ _ (keeps_sync_phase db msg) Hsync).
  rewrite (sweep_phase_buffer _ _ _ Hsweep).
  apply kept_by_sweep_upto.
  apply (process_changes_buffer_upto msg _ _ _) in Hloop; [exact Hloop |].
  unfold buffer_upto. rewrite buffer_emit.
  now rewrite (keeps_normal _ _ _ _ (keeps_poll_phase db msg) Hpoll).
Qed.

Lemma consume_stream_drains msgs : forall st st',
  BUFFERED_DMLS st = [] ->
  consume_stream db msgs st = Normal tt st' ->
  BUFFERED_DMLS st' = [].
Proof.
  induction msgs as [| msg rest IH]; intros st st' Hempty H.
  - injection H as <-. exact Hempty.
  - simpl in H. apply bind_inv_normal in H as ([] & s1 & Hmsg & Hrest).
    apply (IH s1); [| exact Hrest].
    apply (handle_message_drains msg st); [| exact Hmsg].
    unfold buffer_upto. rewrite Hempty. constructor.
Qed.

End Buffer.

(** *** Sequence synchronization and acknowledgment *)

Section Sync.

Variable db : Databases.

(** [handle_message] is what precedes the synchronization, then the
    synchronization, then the acknowledgment. *)
Lemma handle_message_phases msg st :
  handle_message db msg st
  = bind (before_sync db msg)
      (fun _ => sync_phase db msg ;; send_feedback (data_start msg)) st.
Proof.
  unfold handle_message, before_sync, bind.
  destruct (poll_phase db msg st) as [[] s1 | e s1]; [| reflexivity].
  destruct (print _ s1) as [[] s2 | e s2]; [| reflexivity].
  destruct (for_each _ _ s2) as [[] s3 | e s3]; [| reflexivity].
  destruct (sweep_phase db msg s3) as [[] s4 | e s4]; reflexivity.
Qed.

(** An exception of the synchronization leaves [handle_message] as it
    is: nothing catches it, and no feedback is sent after it. *)
Lemma handle_message_sync_raises msg st st1 e st2 :
  before_sync db msg st = Normal tt st1 ->
  sync_phase db msg st1 = Raise e st2 ->
  handle_message db msg st = Raise e st2.
Proof.
  intros Hb Hs. rewrite handle_message_phases.
  rewrite (bind_normal _ _ _ _ _ Hb). now rewrite (bind_raise _ _ _ _ _ Hs).
Qed.

(** The loop of [sync_sequences] stops at the first sequence the
    replica refuses. *)
Lemma sync_loop_raises (pre : list SeqRow) failed post st st1 :
  let full_table := seq_schema failed ++ "." ++ seq_table failed in
  let full_seq := seq_schema failed ++ "." ++ seq_sequence failed in
  let sql := setval_sql (seq_column failed) full_table in
  let line := LogSyncing full_seq (seq_column failed) full_table in
  for_each pre (sync_one db) st = Normal tt st1 ->
  replica_accepts db (trace (emit (Print line) st1)) sql [VStr full_seq] = false ->
  for_each (pre ++ failed :: post)%list (sync_one db) st
  = Raise (DatabaseError sql)
      (emit (ReplicaExecute sql [VStr full_seq] false) (emit (Print line) st1)).
Proof.
  intros full_table full_seq sql line Hpre Hko.
  rewrite for_each_app, (bind_normal _ _ _ _ _ Hpre).
  cbn [for_each]. unfold bind at 1. unfold sync_one at 1.
  fold full_table full_seq sql line.
  unfold bind, print, replica_execute. now rewrite Hko.
Qed.

(** What [handle_message] does when one sequence cannot be
    resynchronized: nothing catches the failure.  When the handler
    reaches the synchronization, the catalog query returns
    [pre ++ failed :: post], the sequences of [pre] are resynchronized
    and the replica rejects the statement for [failed], the handler
    raises that error: the history ends with the rejected statement, so
    the sequences of [post] are not resynchronized and no feedback is
    sent for the message. *)
Theorem sync_failure_propagates msg st st1 (pre : list SeqRow) failed post st3 :
  let st2 :=
    emit (ReplicaExecute SEQ_QUERY [] true)
      (emit (Print LogSyncingSequences) st1) in
  let full_table := seq_schema failed ++ "." ++ seq_table failed in
  let full_seq := seq_schema failed ++ "." ++ seq_sequence failed in
  let sql := setval_sql (seq_column failed) full_table in
  let line := LogSyncing full_seq (seq_column failed) full_table in
  changes_of msg <> [] ->
  before_sync db msg st = Normal tt st1 ->
  replica_accepts db (trace (emit (Print LogSyncingSequences) st1))
    SEQ_QUERY [] = true ->
  replica_sequences db (trace st2) = (pre ++ failed :: post)%list ->
  for_each pre (sync_one db) st2 = Normal tt st3 ->
  replica_accepts db (trace (emit (Print line) st3)) sql [VStr full_seq] = false ->
  handle_message db msg st
  = Raise (DatabaseError sql)
      (emit (ReplicaExecute sql [VStr full_seq] false) (emit (Print line) st3)).
Proof.
  intros st2 full_table full_seq sql line Hne Hb Hq Hrows Hpre Hko.
  apply (handle_message_sync_raises msg st st1); [exact Hb |].
  unfold sync_phase. destruct (changes_of msg) as [| c cs]; [congruence |].
  unfold bind at 1. unfold print at 1.
  unfold sync_sequences. unfold bind at 1. unfold replica_execute at 1.
  rewrite Hq. fold st2.
  unfold bind at 1. unfold replica_fetch_sequences. rewrite Hrows.
  now apply sync_loop_raises.
Qed.

(** C10. The sequence synchronizer is invoked whenever the change list
    of the message is not empty, whatever became of the changes: when
    the handler gets through the poll, the loop over the changes and the
    sweep, it prints the line and sends the catalog query to the replica
    next. *)
Theorem sync_invoked_on_nonempty_change_list msg st st1 :
  changes_of msg <> [] ->
  before_sync db msg st = Normal tt st1 ->
  handle_message db msg st
  = bind (sync_sequences db) (fun _ => send_feedback (data_start msg))
      (emit (Print LogSyncingSequences) st1)
  /\ exists ok rest,
       trace (state_of (handle_message db msg st))
       = (trace st1
          ++ [Print LogSyncingSequences; ReplicaExecute SEQ_QUERY [] ok]
          ++ rest)%list.
Proof.
  intros Hne Hb.
  assert (Heq : handle_message db msg st
                = bind (sync_sequences db)
                    (fun _ => send_feedback (data_start msg))
                    (emit (Print LogSyncingSequences) st1)).
  { rewrite handle_message_phases, (bind_normal _ _ _ _ _ Hb).
    unfold sync_phase. destruct (changes_of msg) as [| c cs]; [congruence |].
    rewrite bind_assoc. reflexivity. }
  split; [exact Heq |]. rewrite Heq.
  exists (replica_accepts db (trace (emit (Print LogSyncingSequences) st1))
            SEQ_QUERY []).
  unfold sync_sequences. rewrite bind_assoc.
  unfold bind at 1. unfold replica_execute at 1.
  destruct (replica_accepts db _ SEQ_QUERY []).
  - match goal with
    | |- exists rest, trace (state_of (?c ?s2)) = _ =>
        assert (Hext : extends_trace c)
    end.
    { unfold sync_one. extends. apply ext_replica_execute. }
    match goal with
    | |- exists rest, trace (state_of (?c ?s2)) = _ =>
        destruct (Hext s2) as (evs & He)
    end.
    exists evs. rewrite He, !trace_emit, <- !app_assoc. reflexivity.
  - cbn [state_of]. exists []. rewrite !trace_emit, <- !app_assoc. reflexivity.
Qed.

End Sync.

Ltac in_list := repeat first [left; reflexivity | right].

Lemma sync_failure_propagates_witness :
  let failed := mkSeqRow "public" "gone" "id" "gone_id_seq" in
  let st3 :=
    emit (ReplicaExecute SEQ_QUERY [] true)
      (emit (Print LogSyncingSequences)
         (state_of (before_sync db_two_sequences insert_message initial_state))) in
  handle_message db_two_sequences insert_message initial_state
  = Raise (DatabaseError (setval_sql "id" "public.gone"))
      (emit (ReplicaExecute (setval_sql "id" "public.gone")
                            [VStr "public.gone_id_seq"] false)
         (emit (Print (LogSyncing "public.gone_id_seq" "id" "public.gone")) st3)).
Proof.
  intros failed st3.
  apply (sync_failure_propagates db_two_sequences insert_message initial_state
           (state_of (before_sync db_two_sequences insert_message initial_state))
           [] failed [mkSeqRow "public" "t" "id" "t_id_seq"] st3);
    [discriminate | vm_compute; reflexivity ..].
Defined.

(** C7 on a run.  The claim is that a failure on one sequence is logged
    and stops neither the other sequences nor the message.  With two
    sequences of which the first cannot be resynchronized, the handler
    raises at the first: the statement for the second sequence is never
    sent, nothing is printed about the failure, and the message is not
    acknowledged.  Every other statement sent to the replica in this
    file is inside a [try] that prints the error ([apply_dml], the loop
    of [poll_and_apply_ddls]); the loop of [sync_sequences] is not. *)
Lemma sync_failure_aborts_message :
  let out := handle_message db_two_sequences insert_message initial_state in
  out = Raise (DatabaseError (setval_sql "id" "public.gone")) (state_of out)
  /\ replica_statements (trace (state_of out))
     = [ ("INSERT INTO t (id, name) VALUES (%s, %s)", true);
         (SEQ_QUERY, true);
         (setval_sql "id" "public.gone", false) ]
  /\ last (trace (state_of out)) (Print LogWal2jsonEvent)
     = ReplicaExecute (setval_sql "id" "public.gone")
                      [VStr "public.gone_id_seq"] false
  /\ feedback_sent (trace (state_of out)) = false.
Proof. vm_compute. repeat split. Qed.

Lemma sync_invoked_on_nonempty_change_list_witness :
  let st1 := state_of (before_sync db_quiet noise_message initial_state) in
  handle_message db_quiet noise_message initial_state
  = bind (sync_sequences db_quiet) (fun _ => send_feedback 10)
      (emit (Print LogSyncingSequences) st1)
  /\ exists ok rest,
       trace (state_of (handle_message db_quiet noise_message initial_state))
       = (trace st1
          ++ [Print LogSyncingSequences; ReplicaExecute SEQ_QUERY [] ok]
          ++ rest)%list.
Proof.
  intros st1.
  apply (sync_invoked_on_nonempty_change_list db_quiet noise_message
           initial_state st1).
  - discriminate.
  - vm_compute. reflexivity.
Defined.

(** A message whose only change is against the DDL-log table: nothing is
    applied or buffered, and the sequences are synchronized all the
    same. *)
Example noise_only_message_run :
  let out := handle_message db_quiet noise_message initial_state in
  out = Normal tt (state_of out)
  /\ replica_statements (trace (state_of out)) = [(SEQ_QUERY, true)]
  /\ BUFFERED_DMLS (state_of out) = []
  /\ In (Print LogSkippingChange) (trace (state_of out))
  /\ feedback_sent (trace (state_of out)) = true.
Proof. vm_compute. repeat split. in_list. Qed.

(** With an empty change list the synchronizer is not invoked. *)
Example empty_message_run :
  replica_statements
    (trace (state_of (handle_message db_quiet (mkMessage 10 (Some []))
                        initial_state))) = []
  /\ replica_statements
       (trace (state_of (handle_message db_quiet (mkMessage 10 None)
                           initial_state))) = [].
Proof. vm_compute. split; reflexivity. Qed.

(** ** C1: the ordering of row changes after schema changes *)

(** C1 on a run.  The DDL entry at ["0/5"] is rejected by the replica,
    so the mark stays at 0.  The insert of the message at position 10 is
    buffered because 10 is after the mark, and the sweep of the same
    message executes it because 10 is not after the message: the row
    change at position 10 reaches the replica while the DDL entry at
    position 5 has not been applied. *)
Theorem buffered_change_applied_before_ddl :
  let out := handle_message db_failing_ddl insert_message initial_state in
  out = Normal tt (state_of out)
  /\ lsn_to_int "0/5" = Ok 5
  /\ replica_statements (trace (state_of out))
     = [ ("ALTER TABLE t ADD COLUMN name text", false);
         ("INSERT INTO t (id, name) VALUES (%s, %s)", true);
         (SEQ_QUERY, true) ]
  /\ applied_ddl_lsn_int (state_of out) = 0
  /\ In (Print (LogBuffering 10 0)) (trace (state_of out))
  /\ In (Print (LogApplyingBuffered 10)) (trace (state_of out))
  /\ feedback_sent (trace (state_of out)) = true.
Proof. vm_compute. repeat split; in_list. Qed.

(** * Further properties *)

(** ** Events added and observations kept *)

Lemma adds_weaken (P Q : Event -> Prop) {A} (c : M A) :
  (forall ev, P ev -> Q ev) -> adds P c -> adds Q c.
Proof.
  intros HPQ Hc st. destruct (Hc st) as (evs & Ht & Hev).
  exists evs. split; [exact Ht |]. eapply Forall_impl; eassumption.
Qed.

Lemma adds_nothing P {A} (c : M A) :
  (forall st, trace (state_of (c st)) = trace st) -> adds P c.
Proof.
  intros H st. exists []. rewrite H, app_nil_r. split; [reflexivity | constructor].
Qed.

Lemma adds_one P {A} (c : M A) ev :
  P ev -> (forall st, trace (state_of (c st)) = (trace st ++ [ev])%list) ->
  adds P c.
Proof.
  intros HP H st. exists [ev]. split; [apply H | now constructor].
Qed.

Lemma adds_ret P {A} (a : A) : adds P (ret a).
Proof. now apply adds_nothing. Qed.

Lemma adds_raise P {A} e : adds P (@raise A e).
Proof. now apply adds_nothing. Qed.

Lemma adds_print P line : P (Print line) -> adds P (print line).
Proof. intros HP. now apply (adds_one P _ (Print line)). Qed.

Lemma adds_bind P {A B} (c : M A) (k : A -> M B) :
  adds P c -> (forall a, adds P (k a)) -> adds P (bind c k).
Proof.
  intros Hc Hk st. unfold bind. destruct (Hc st) as (evs & He & HP).
  destruct (c st) as [a s1 | e s1]; simpl in *.
  - destruct (Hk a s1) as (evs' & He' & HP'). exists (evs ++ evs')%list.
    split; [now rewrite He', He, app_assoc | now apply Forall_app].
  - now exists evs.
Qed.

Lemma adds_try P {A} (body : M A) handler :
  adds P body -> (forall e, adds P (handler e)) ->
  adds P (try_except body handler).
Proof.
  intros Hb Hh st. unfold try_except. destruct (Hb st) as (evs & He & HP).
  destruct (body st) as [a s1 | e s1]; simpl in *.
  - now exists evs.
  - destruct (Hh e s1) as (evs' & He' & HP'). exists (evs ++ evs')%list.
    split; [now rewrite He', He, app_assoc | now apply Forall_app].
Qed.

Lemma adds_getitem P {A} key (field : option A) : adds P (getitem key field).
Proof. destruct field; [apply adds_ret | apply adds_raise]. Qed.

Lemma adds_lift_result P {A} (r : Result A) : adds P (lift_result r).
Proof. destruct r; [apply adds_ret | apply adds_raise]. Qed.

Lemma adds_for_each P {A} (xs : list A) body :
  (forall x, adds P (body x)) -> adds P (for_each xs body).
Proof.
  intros Hb. induction xs as [| x xs IH]; simpl.
  - apply adds_ret.
  - apply adds_bind; [apply Hb | intros _; exact IH].
Qed.

Lemma adds_set_applied_str P s : adds P (set_applied_str s).
Proof. now apply adds_nothing. Qed.

Lemma adds_set_applied_int P i : adds P (set_applied_int i).
Proof. now apply adds_nothing. Qed.

Lemma adds_set_buffer P b : adds P (set_buffer b).
Proof. now apply adds_nothing. Qed.

Lemma adds_get_state P : adds P get_state.
Proof. now apply adds_nothing. Qed.

Lemma adds_replica_execute (P : Event -> Prop) db sql params :
  (forall ok, P (ReplicaExecute sql params ok)) ->
  adds P (replica_execute db sql params).
Proof.
  intros HP st. unfold replica_execute.
  destruct (replica_accepts db _ _ _); eexists; (split; [reflexivity |]);
    constructor; auto.
Qed.

Lemma adds_primary_fetch_ddls (P : Event -> Prop) db since :
  (forall ok, P (PrimaryExecute DDL_LOG_QUERY since ok)) ->
  adds P (primary_fetch_ddls db since).
Proof.
  intros HP st. unfold primary_fetch_ddls.
  destruct (primary_ddl_log db _ _); eexists; (split; [reflexivity |]);
    constructor; auto.
Qed.

Lemma adds_replica_fetch_sequences P db : adds P (replica_fetch_sequences db).
Proof. now apply adds_nothing. Qed.

Create HintDb adds.
#[export] Hint Resolve adds_ret adds_raise adds_getitem adds_lift_result
  adds_set_applied_str adds_set_applied_int adds_set_buffer adds_get_state
  adds_replica_fetch_sequences : adds.

(** Splits a computation along its binds; what is left are the prints
    and the executions, each with the obligation on its event. *)
Ltac adds_steps :=
  repeat first
    [ progress auto with adds
    | apply adds_bind; [| intros ?]
    | apply adds_try; [| intros ?]
    | apply adds_for_each; intros ?
    | apply adds_print
    | apply adds_replica_execute; intros ?
    | apply adds_primary_fetch_ddls; intros ?
    | match goal with
      | |- adds _ (if ?b then _ else _) => destruct b
      | |- adds _ (match ?x with _ => _ end) => destruct x
      end ].

Lemma preserves_ret {X} (f : State -> X) {A} (a : A) : preserves f (ret a).
Proof. now intros st. Qed.

Lemma preserves_raise {X} (f : State -> X) {A} e : preserves f (@raise A e).
Proof. now intros st. Qed.

Lemma preserves_bind {X} (f : State -> X) {A B} (c : M A) (k : A -> M B) :
  preserves f c -> (forall a, preserves f (k a)) -> preserves f (bind c k).
Proof.
  intros Hc Hk st. unfold bind. specialize (Hc st).
  destruct (c st) as [a s1 | e s1]; simpl in *.
  - now rewrite Hk.
  - exact Hc.
Qed.

Lemma preserves_try {X} (f : State -> X) {A} (body : M A) handler :
  preserves f body -> (forall e, preserves f (handler e)) ->
  preserves f (try_except body handler).
Proof.
  intros Hb Hh st. unfold try_except. specialize (Hb st).
  destruct (body st) as [a s1 | e s1]; simpl in *.
  - exact Hb.
  - now rewrite Hh.
Qed.

Lemma preserves_getitem {X} (f : State -> X) {A} key (field : option A) :
  preserves f (getitem key field).
Proof. destruct field; [apply preserves_ret | apply preserves_raise]. Qed.

Lemma preserves_for_each {X} (f : State -> X) {A} (xs : list A) body :
  (forall x, preserves f (body x)) -> preserves f (for_each xs body).
Proof.
  intros Hb. induction xs as [| x xs IH]; simpl.
  - apply preserves_ret.
  - apply preserves_bind; [apply Hb | intros _; exact IH].
Qed.

(** The mark is touched by nothing but the two assignments of the poll
    phase. *)
Lemma mark_print line : preserves mark (print line).
Proof. now intros st. Qed.

Lemma mark_replica_execute db sql params :
  preserves mark (replica_execute db sql params).
Proof.
  intros st. unfold replica_execute. now destruct (replica_accepts db _ _ _).
Qed.

Lemma mark_set_buffer b : preserves mark (set_buffer b).
Proof. now intros st. Qed.

Lemma mark_get_state : preserves mark get_state.
Proof. now intros st. Qed.

Lemma mark_send_feedback l : preserves mark (send_feedback l).
Proof. now intros st. Qed.

Lemma mark_replica_fetch_sequences db :
  preserves mark (replica_fetch_sequences db).
Proof. now intros st. Qed.

Create HintDb mark.
#[export] Hint Resolve preserves_ret preserves_raise preserves_getitem
  mark_print mark_replica_execute mark_set_buffer mark_get_state
  mark_send_feedback mark_replica_fetch_sequences : mark.

Ltac mark_steps :=
  repeat first
    [ progress auto with mark
    | apply preserves_bind; [| intros ?]
    | apply preserves_try; [| intros ?]
    | apply preserves_for_each; intros ?
    | match goal with
      | |- preserves _ (if ?b then _ else _) => destruct b
      | |- preserves _ (match ?x with _ => _ end) => destruct x
      end ].

Lemma mark_apply_dml db c : preserves mark (apply_dml db c).
Proof. unfold apply_dml. mark_steps. Qed.

Lemma mark_process_change db msg c : preserves mark (process_change db msg c).
Proof. unfold process_change. mark_steps. Qed.

Lemma mark_sweep_loop db msg buffered : forall still,
  preserves mark (sweep_loop db msg buffered still).
Proof.
  induction buffered as [| [l c] rest IH]; intros still; cbn [sweep_loop].
  - apply preserves_ret.
  - destruct (l <=? data_start msg); [| apply IH].
    apply preserves_bind; [apply mark_print | intros _].
    apply preserves_bind; [apply mark_apply_dml | intros _; apply IH].
Qed.

Lemma mark_sweep_phase db msg : preserves mark (sweep_phase db msg).
Proof.
  unfold sweep_phase. apply preserves_bind; [apply mark_get_state | intros st].
  destruct (BUFFERED_DMLS st); [apply preserves_ret |].
  mark_steps. apply mark_sweep_loop.
Qed.

Lemma mark_sync_phase db msg : preserves mark (sync_phase db msg).
Proof. unfold sync_phase, sync_sequences, sync_one. mark_steps. Qed.

Lemma preserves_normal {X} (f : State -> X) {A} (c : M A) st a st' :
  preserves f c -> c st = Normal a st' -> f st' = f st.
Proof. intros Hk Hc. specialize (Hk st). now rewrite Hc in Hk. Qed.

(** *** Projections of a history *)

Lemma replica_statements_app tr1 tr2 :
  replica_statements (tr1 ++ tr2)
  = (replica_statements tr1 ++ replica_statements tr2)%list.
Proof.
  induction tr1 as [| ev tr1 IH]; [reflexivity |].
  destruct ev; simpl; now rewrite IH.
Qed.

Lemma feedbacks_app tr1 tr2 :
  feedbacks (tr1 ++ tr2) = (feedbacks tr1 ++ feedbacks tr2)%list.
Proof.
  induction tr1 as [| ev tr1 IH]; [reflexivity |].
  destruct ev; simpl; now rewrite IH.
Qed.

Lemma primary_queries_app tr1 tr2 :
  primary_queries (tr1 ++ tr2)
  = (primary_queries tr1 ++ primary_queries tr2)%list.
Proof.
  induction tr1 as [| ev tr1 IH]; [reflexivity |].
  destruct ev; simpl; now rewrite IH.
Qed.

Lemma feedbacks_none evs : Forall not_feedback evs -> feedbacks evs = [].
Proof.
  induction 1 as [| ev evs Hev _ IH]; [reflexivity |].
  destruct ev; simpl in *; [exact IH .. | contradiction].
Qed.

Lemma replica_statements_none evs :
  Forall not_replica evs -> replica_statements evs = [].
Proof.
  induction 1 as [| ev evs Hev _ IH]; [reflexivity |].
  destruct ev; simpl in *; try exact IH. contradiction.
Qed.

(** ** More on the LSN codec *)

Lemma count_char_app c s t :
  count_char c (s ++ t) = (count_char c s + count_char c t)%nat.
Proof.
  induction s as [| a s IH]; [reflexivity |].
  simpl. destruct (Ascii.eqb a c); simpl; now rewrite IH.
Qed.

Lemma count_slash_all_hex s : all_hex s = true -> count_char "/" s = 0%nat.
Proof.
  induction s as [| c rest IH]; [reflexivity |]. simpl.
  destruct (Py.hex_digit_value c) as [d |] eqn:Hc; [| discriminate].
  rewrite (hex_digit_not_slash c d Hc). exact IH.
Qed.

Lemma format_x_numeral n : 0 <= n -> is_hex_numeral (Py.format_x n) = true.
Proof.
  intros Hn. unfold Py.format_x.
  replace (n <? 0) with false by (symmetry; apply Z.ltb_ge; lia).
  now apply hex_nonneg_numeral.
Qed.

Lemma hex_digit_value_range c d : Py.hex_digit_value c = Some d -> 0 <= d < 16.
Proof.
  destruct c as [[] [] [] [] [] [] [] []]; intros H; vm_compute in H;
    first [discriminate H | injection H as <-; lia].
Qed.

Lemma hex_value_nonneg s : forall acc, 0 <= acc -> 0 <= hex_value acc s.
Proof.
  induction s as [| c rest IH]; intros acc Hacc; cbn [hex_value];
    [exact Hacc |].
  destruct (Py.hex_digit_value c) as [d |] eqn:Hc; [| exact Hacc].
  apply IH. pose proof (hex_digit_value_range c d Hc). lia.
Qed.

(** X1.  The encoder writes strict LSN texts, and writes distinct positions
    differently. *)
Theorem int_to_lsn_strict x y :
  0 <= x -> 0 <= y ->
  strict_lsn_text (int_to_lsn x) = true
  /\ (int_to_lsn x = int_to_lsn y -> x = y).
Proof.
  intros Hx Hy. split.
  - unfold int_to_lsn. destruct (x =? 0); [reflexivity |].
    assert (Hhigh : 0 <= Z.shiftr x 32) by now apply Z.shiftr_nonneg.
    assert (Hlow : 0 <= Z.land x 4294967295) by (apply Z.land_nonneg; now left).
    unfold strict_lsn_text.
    rewrite split_two by now apply format_x_all_hex.
    rewrite !format_x_numeral by assumption.
    rewrite count_char_app. cbn [count_char append Ascii.eqb Bool.eqb].
    rewrite !count_slash_all_hex by now apply format_x_all_hex.
    reflexivity.
  - intros E.
    pose proof (lsn_round_trip_nonneg x Hx) as Rx.
    pose proof (lsn_round_trip_nonneg y Hy) as Ry.
    rewrite E in Rx. congruence.
Qed.

Lemma int_to_lsn_strict_witness :
  strict_lsn_text (int_to_lsn 97500059720) = true
  /\ (int_to_lsn 97500059720 = int_to_lsn 5 -> 97500059720 = 5).
Proof. apply (int_to_lsn_strict 97500059720 5); lia. Defined.

(** X2.  On a strict LSN text [high/low] the decoder returns
    [high * 2^32 + low], a natural number. *)
Theorem lsn_to_int_strict s :
  strict_lsn_text s = true ->
  exists high low,
    Py.split "/" s = [high; low]
    /\ lsn_to_int s = Ok (hex_value 0 high * 2 ^ 32 + hex_value 0 low)
    /\ 0 <= hex_value 0 high * 2 ^ 32 + hex_value 0 low.
Proof.
  unfold strict_lsn_text. intros H.
  apply andb_true_iff in H as [_ H].
  destruct (Py.split "/" s) as [| high [| low [| x tl]]] eqn:Hs; try discriminate.
  apply andb_true_iff in H as [Hh Hl].
  exists high, low. split; [reflexivity | split].
  - rewrite (lsn_to_int_two_parts s high low (hex_value 0 high) (hex_value 0 low)
               Hs (int16_hex_numeral _ Hh) (int16_hex_numeral _ Hl)).
    now rewrite Z.shiftl_mul_pow2 by lia.
  - pose proof (hex_value_nonneg high 0 ltac:(lia)).
    pose proof (hex_value_nonneg low 0 ltac:(lia)). lia.
Qed.

Lemma lsn_to_int_strict_witness :
  exists high low,
    Py.split "/" "16/B374D848" = [high; low]
    /\ lsn_to_int "16/B374D848"
       = Ok (hex_value 0 high * 2 ^ 32 + hex_value 0 low)
    /\ 0 <= hex_value 0 high * 2 ^ 32 + hex_value 0 low.
Proof. apply (lsn_to_int_strict "16/B374D848"). reflexivity. Defined.

(** ** More on the DDL replay *)

Ltac conjs := repeat match goal with |- _ /\ _ => split end.

Section ReplayMore.

Variable db : Databases.

Lemma ddl_done_extends tr evs row :
  ddl_done tr row -> ddl_done (tr ++ evs) row.
Proof.
  intros [H | H]; [now left | right]. apply in_or_app. now left.
Qed.

(** The loop goes through a prefix of the rows: the entries of the
    prefix are done with and their statements were executed in order;
    if it stopped, the next entry is the one that failed. *)
Lemma ddl_loop_split rows : forall applied st hw flag st',
  ddl_loop db rows applied st = Normal (hw, flag) st' ->
  exists done rest,
    rows = (done ++ rest)%list
    /\ hw = last (map lsn done) applied
    /\ Forall (ddl_done (trace st')) done
    /\ replica_statements (trace st')
       = (replica_statements (trace st) ++ replay_statements done
          ++ (if flag then [] else failed_statement rest))%list
    /\ (if flag then rest = [] else rest <> []).
Proof.
  induction rows as [| row rows IH]; intros applied st hw flag st' H.
  - injection H as <- <- <-. exists [], []. cbn.
    conjs; try reflexivity; [constructor | now rewrite app_nil_r].
  - destruct (is_administrative (ddl row)) eqn:Hadm.
    + rewrite ddl_loop_skip in H by exact Hadm.
      destruct (IH _ _ _ _ _ H) as (done & rest & -> & -> & Hdone & Hst & Hfl).
      exists (row :: done), rest.
      change (map lsn (row :: done)) with (lsn row :: map lsn done).
      rewrite last_cons. repeat split; try assumption.
      * constructor; [now left | exact Hdone].
      * rewrite Hst, trace_emit, replica_statements_app. cbn [replica_statements].
        rewrite app_nil_r. unfold replay_statements. cbn [filter].
        now rewrite Hadm.
    + destruct (replica_accepts db
        (trace st ++ [Print (LogAttempting (lsn row) (ddl row))]) (ddl row) [])
        eqn:Hacc.
      * rewrite ddl_loop_apply in H by assumption.
        pose proof (ddl_loop_events db _ _ _ _ _ H) as (evs & Ht & _).
        destruct (IH _ _ _ _ _ H) as (done & rest & -> & -> & Hdone & Hst & Hfl).
        exists (row :: done), rest.
        change (map lsn (row :: done)) with (lsn row :: map lsn done).
        rewrite last_cons. conjs; try assumption; try reflexivity.
        -- constructor; [| exact Hdone]. right.
           rewrite Ht, !trace_emit. apply in_or_app. left.
           apply in_or_app. left. apply in_or_app. right. now left.
        -- rewrite Hst, !trace_emit, !replica_statements_app.
           cbn [replica_statements]. rewrite app_nil_r, <- !app_assoc.
           unfold replay_statements. cbn [filter]. rewrite Hadm. reflexivity.
      * rewrite ddl_loop_fail in H by assumption.
        injection H as <- <- <-. exists [], (row :: rows).
        conjs; try reflexivity; [constructor | | discriminate].
        rewrite !trace_emit, !replica_statements_app. cbn.
        now rewrite !app_nil_r.
Qed.

(** The poll is the fetch and then the loop. *)
Lemma poll_and_apply_ddls_fetched since st rows :
  let st0 :=
    emit (Print (LogFound (List.length rows)))
      (emit (PrimaryExecute DDL_LOG_QUERY since true)
         (emit (Print (LogExecutingQuery since))
            (emit (Print (LogPolling since)) st))) in
  primary_ddl_log db
    (trace (emit (Print (LogExecutingQuery since))
              (emit (Print (LogPolling since)) st))) since = Some rows ->
  poll_and_apply_ddls db since st
  = bind (ddl_loop db rows since) (fun r => ret (fst r)) st0.
Proof.
  intros st0 Hfetch.
  unfold poll_and_apply_ddls. unfold bind at 1 2 3 4. unfold print at 1 2 3.
  unfold primary_fetch_ddls. now rewrite Hfetch.
Qed.

Lemma poll_header_statements since st :
  replica_statements
    (trace (emit (Print (LogFound (List.length (A := DdlRow) [])))
              (emit (PrimaryExecute DDL_LOG_QUERY since true)
                 (emit (Print (LogExecutingQuery since))
                    (emit (Print (LogPolling since)) st)))))
  = replica_statements (trace st).
Proof.
  rewrite !trace_emit, !replica_statements_app. cbn. now rewrite !app_nil_r.
Qed.

(** X4.  The replay goes through the log in order.  Whatever the replica
    answers, the poll returns normally once the primary has answered;
    it has executed the non-administrative statements of a prefix of
    the rows, in the order of the rows, each once and successfully,
    then at most one more statement, which failed; it returns the LSN
    of the last row of the prefix (the starting LSN when the prefix is
    empty), and every row of the prefix is done with. *)
Theorem replay_executes_prefix_in_order since st rows :
  (forall tr, primary_ddl_log db tr since = Some rows) ->
  exists done rest hw st',
    poll_and_apply_ddls db since st = Normal hw st'
    /\ rows = (done ++ rest)%list
    /\ hw = last (map lsn done) since
    /\ Forall (ddl_done (trace st')) done
    /\ replica_statements (trace st')
       = (replica_statements (trace st) ++ replay_statements done
          ++ failed_statement rest)%list.
Proof.
  intros Hfetch.
  rewrite (poll_and_apply_ddls_fetched since st rows (Hfetch _)).
  match goal with
  | |- context [bind _ _ ?s] => set (st0 := s)
  end.
  destruct (ddl_loop_returns db rows since st0) as ([hw flag] & st' & Hloop).
  destruct (ddl_loop_split rows _ _ _ _ _ Hloop)
    as (done & rest & Hrows & Hhw & Hdone & Hst & Hfl).
  exists done, rest, hw, st'.
  rewrite (bind_normal _ _ _ _ _ Hloop). cbn [fst ret].
  conjs; try assumption; try reflexivity.
  rewrite Hst. unfold st0.
  rewrite !trace_emit, !replica_statements_app. cbn [replica_statements].
  rewrite !app_nil_r.
  destruct flag; [| reflexivity]. subst rest. reflexivity.
Qed.

(** X5.  When the replica accepts every statement, the replay goes through
    the whole log: the poll returns the LSN of the last row (the
    starting LSN when there is none) and has executed exactly the
    non-administrative statements, in order. *)
Theorem replay_completes_when_accepted since st rows :
  (forall tr, primary_ddl_log db tr since = Some rows) ->
  (forall tr sql, replica_accepts db tr sql [] = true) ->
  exists st',
    poll_and_apply_ddls db since st = Normal (last (map lsn rows) since) st'
    /\ replica_statements (trace st')
       = (replica_statements (trace st) ++ replay_statements rows)%list
    /\ Forall (ddl_done (trace st')) rows.
Proof.
  intros Hfetch Hacc.
  rewrite (poll_and_apply_ddls_fetched since st rows (Hfetch _)).
  match goal with
  | |- context [bind _ _ ?s] => set (st0 := s)
  end.
  assert (Hgo : forall rs applied s, exists s',
            ddl_loop db rs applied s
            = Normal (last (map lsn rs) applied, true) s').
  { induction rs as [| row rs IH]; intros applied s.
    - now exists s.
    - change (map lsn (row :: rs)) with (lsn row :: map lsn rs).
      rewrite last_cons.
      destruct (is_administrative (ddl row)) eqn:Hadm.
      + rewrite ddl_loop_skip by exact Hadm. apply IH.
      + rewrite ddl_loop_apply by (try exact Hadm; apply Hacc). apply IH. }
  destruct (Hgo rows since st0) as (st' & Hloop).
  destruct (ddl_loop_split rows _ _ _ _ _ Hloop)
    as (done & rest & Hrows & _ & Hdone & Hst & Hfl).
  subst rest. rewrite app_nil_r in Hrows. subst done.
  exists st'. rewrite (bind_normal _ _ _ _ _ Hloop). cbn [fst ret].
  conjs; [reflexivity | | exact Hdone].
  rewrite Hst. unfold st0.
  rewrite !trace_emit, !replica_statements_app. cbn [replica_statements].
  now rewrite !app_nil_r.
Qed.

(** X6.  The poll raises only when the query on the primary fails; nothing
    has been sent to the replica then. *)
Theorem poll_raises_only_on_primary since st e st' :
  poll_and_apply_ddls db since st = Raise e st' ->
  e = DatabaseError DDL_LOG_QUERY
  /\ replica_statements (trace st') = replica_statements (trace st)
  /\ primary_ddl_log db
       (trace (emit (Print (LogExecutingQuery since))
                 (emit (Print (LogPolling since)) st))) since = None.
Proof.
  destruct (primary_ddl_log db
              (trace (emit (Print (LogExecutingQuery since))
                        (emit (Print (LogPolling since)) st))) since)
    as [rows |] eqn:Hfetch.
  - rewrite (poll_and_apply_ddls_fetched since st rows Hfetch).
    match goal with
    | |- context [bind _ _ ?s] => set (st0 := s)
    end.
    destruct (ddl_loop_returns db rows since st0) as (r & s1 & Hloop).
    rewrite (bind_normal _ _ _ _ _ Hloop). discriminate.
  - unfold poll_and_apply_ddls. unfold bind at 1 2 3. unfold print at 1 2.
    unfold primary_fetch_ddls. rewrite Hfetch.
    intros H. injection H as <- <-. conjs; try reflexivity.
    rewrite !trace_emit, !replica_statements_app. cbn.
    now rewrite !app_nil_r.
Qed.

End ReplayMore.

Lemma replay_executes_prefix_in_order_witness :
  exists done rest hw st',
    poll_and_apply_ddls db_replay "0/0" initial_state = Normal hw st'
    /\ replay_rows = (done ++ rest)%list
    /\ hw = last (map lsn done) "0/0"
    /\ Forall (ddl_done (trace st')) done
    /\ replica_statements (trace st')
       = (replica_statements (trace initial_state) ++ replay_statements done
          ++ failed_statement rest)%list.
Proof.
  apply (replay_executes_prefix_in_order db_replay "0/0" initial_state
           replay_rows).
  intros tr. reflexivity.
Defined.

Lemma replay_completes_when_accepted_witness :
  exists st',
    poll_and_apply_ddls (db_with_log replay_rows (fun _ => true)) "0/0"
      initial_state
    = Normal (last (map lsn replay_rows) "0/0") st'
    /\ replica_statements (trace st')
       = (replica_statements (trace initial_state)
          ++ replay_statements replay_rows)%list
    /\ Forall (ddl_done (trace st')) replay_rows.
Proof.
  apply (replay_completes_when_accepted
           (db_with_log replay_rows (fun _ => true)) "0/0" initial_state
           replay_rows); intros; reflexivity.
Defined.

Lemma poll_raises_only_on_primary_witness :
  let st' := state_of (poll_and_apply_ddls db_primary_down "0/0" initial_state) in
  DatabaseError DDL_LOG_QUERY = DatabaseError DDL_LOG_QUERY
  /\ replica_statements (trace st') = replica_statements (trace initial_state)
  /\ primary_ddl_log db_primary_down
       (trace (emit (Print (LogExecutingQuery "0/0"))
                 (emit (Print (LogPolling "0/0")) initial_state))) "0/0" = None.
Proof.
  intros st'.
  apply (poll_raises_only_on_primary db_primary_down "0/0" initial_state
           (DatabaseError DDL_LOG_QUERY) st').
  reflexivity.
Defined.

(** ** More on the message handler *)

Ltac pr_steps :=
  repeat first
    [ exact I
    | progress auto with adds
    | apply adds_bind; [| intros ?]
    | apply adds_try; [| intros ?]
    | apply adds_for_each; intros ?
    | apply adds_print
    | apply adds_replica_execute; intros ?
    | match goal with
      | |- adds _ (if ?b then _ else _) => destruct b
      | |- adds _ (match ?x with _ => _ end) => destruct x
      end ].

Section HandlerMore.

Variable db : Databases.

Lemma pr_apply_dml c : adds print_or_replica (apply_dml db c).
Proof. unfold apply_dml. pr_steps. Qed.

Lemma pr_ddl_loop rows : forall applied,
  adds print_or_replica (ddl_loop db rows applied).
Proof.
  induction rows as [| row rows IH]; intros applied; cbn [ddl_loop].
  - apply adds_ret.
  - destruct (is_administrative (ddl row)).
    + apply adds_bind; [now apply adds_print | intros _; apply IH].
    + apply adds_bind; [now apply adds_print | intros _].
      apply adds_bind; [pr_steps | intros [|]; [apply IH | apply adds_ret]].
Qed.

Lemma pr_process_change msg c : adds print_or_replica (process_change db msg c).
Proof. unfold process_change. pr_steps. Qed.

Lemma pr_sweep_loop msg buffered : forall still,
  adds print_or_replica (sweep_loop db msg buffered still).
Proof.
  induction buffered as [| [l c] rest IH]; intros still; cbn [sweep_loop].
  - apply adds_ret.
  - destruct (l <=? data_start msg); [| apply IH].
    apply adds_bind; [now apply adds_print | intros _].
    apply adds_bind; [apply pr_apply_dml | intros _; apply IH].
Qed.

Lemma pr_sweep_phase msg : adds print_or_replica (sweep_phase db msg).
Proof.
  unfold sweep_phase. apply adds_bind; [apply adds_get_state | intros st].
  destruct (BUFFERED_DMLS st); [apply adds_ret |].
  apply adds_bind; [now apply adds_print | intros _].
  apply adds_bind; [apply pr_sweep_loop | intros still].
  apply adds_bind; [apply adds_set_buffer | intros _]. now apply adds_print.
Qed.

Lemma pr_sync_phase msg : adds print_or_replica (sync_phase db msg).
Proof. unfold sync_phase, sync_sequences, sync_one. pr_steps. Qed.

(** What follows the poll of a message, up to the acknowledgment. *)
Lemma pr_after_poll msg :
  adds print_or_replica
    (print (LogNumberOfChanges (List.length (changes_of msg))) ;;
     for_each (changes_of msg) (process_change db msg) ;;
     sweep_phase db msg ;;
     sync_phase db msg).
Proof.
  apply adds_bind; [now apply adds_print | intros _].
  apply adds_bind; [apply adds_for_each, pr_process_change | intros _].
  apply adds_bind; [apply pr_sweep_phase | intros _]. apply pr_sync_phase.
Qed.

Lemma nf_poll_phase msg : adds not_feedback (poll_phase db msg).
Proof.
  unfold poll_phase, poll_and_apply_ddls.
  repeat first
    [ apply adds_bind; [| intros ?]
    | now apply adds_print
    | progress auto with adds
    | apply adds_primary_fetch_ddls; intros ?; exact I
    | apply (adds_weaken print_or_replica);
        [now intros [] | apply pr_ddl_loop] ].
Qed.

Lemma feedbacks_then_send (c : M unit) m st :
  adds not_feedback c ->
  feedbacks (trace (state_of (bind c (fun _ => send_feedback m) st)))
  = (feedbacks (trace st)
     ++ if returned (bind c (fun _ => send_feedback m) st) then [m] else [])%list.
Proof.
  intros Hc. destruct (Hc st) as (evs & Ht & Hev). unfold bind.
  destruct (c st) as [[] s1 | e s1]; cbn [state_of returned send_feedback] in *.
  - rewrite trace_emit, Ht, !feedbacks_app, (feedbacks_none _ Hev).
    now rewrite app_nil_r.
  - rewrite Ht, feedbacks_app, (feedbacks_none _ Hev). reflexivity.
Qed.

(** A message is acknowledged when its handling returns, and only
    then. *)
Lemma handle_message_feedbacks msg st :
  feedbacks (trace (state_of (handle_message db msg st)))
  = (feedbacks (trace st)
     ++ if returned (handle_message db msg st) then [data_start msg] else [])%list.
Proof.
  assert (Hc : adds not_feedback
                 (poll_phase db msg ;;
                  print (LogNumberOfChanges (List.length (changes_of msg))) ;;
                  for_each (changes_of msg) (process_change db msg) ;;
                  sweep_phase db msg ;;
                  sync_phase db msg)).
  { apply adds_bind; [apply nf_poll_phase | intros _].
    apply (adds_weaken print_or_replica); [now intros [] | apply pr_after_poll]. }
  assert (Heq : handle_message db msg st
                = bind (poll_phase db msg ;;
                        print (LogNumberOfChanges (List.length (changes_of msg))) ;;
                        for_each (changes_of msg) (process_change db msg) ;;
                        sweep_phase db msg ;;
                        sync_phase db msg)
                    (fun _ => send_feedback (data_start msg)) st).
  { unfold handle_message, bind.
    destruct (poll_phase db msg st) as [[] s1 | e s1]; [| reflexivity].
    destruct (print _ s1) as [[] s2 | e s2]; [| reflexivity].
    destruct (for_each _ _ s2) as [[] s3 | e s3]; [| reflexivity].
    destruct (sweep_phase db msg s3) as [[] s4 | e s4]; [| reflexivity].
    destruct (sync_phase db msg s4) as [[] s5 | e s5]; reflexivity. }
  rewrite Heq. now apply feedbacks_then_send.
Qed.

(** X18.  The positions acknowledged to the primary are exactly those of
    the messages whose handling returned, in the order of the stream.
    A call of [handle_message] adds the position of its message to the
    acknowledgments when it returns and adds nothing when it raises;
    along a stream the acknowledgments added are the positions of the
    messages before the first one that raised, which are all the
    messages exactly when the stream is consumed without an
    exception. *)
Theorem acknowledged_prefix msgs : forall st,
  feedbacks (trace (state_of (consume_stream db msgs st)))
  = (feedbacks (trace st) ++ map data_start (handled db msgs st))%list
  /\ (exists rest, msgs = (handled db msgs st ++ rest)%list)
  /\ (returned (consume_stream db msgs st) = true -> handled db msgs st = msgs)
  /\ (returned (consume_stream db msgs st) = false ->
      (List.length (handled db msgs st) < List.length msgs)%nat)
  /\ (forall msg,
        feedbacks (trace (state_of (handle_message db msg st)))
        = (feedbacks (trace st)
           ++ if returned (handle_message db msg st)
              then [data_start msg] else [])%list).
Proof.
  induction msgs as [| msg rest IH]; intros st.
  - cbn. rewrite app_nil_r.
    split; [reflexivity | split; [now exists [] | split; [reflexivity |]]].
    split; [discriminate | intros msg; apply handle_message_feedbacks].
  - cbn [consume_stream handled]. unfold bind.
    pose proof (handle_message_feedbacks msg st) as Hf.
    destruct (handle_message db msg st) as [[] s1 | e s1] eqn:Hmsg;
      cbn [state_of returned] in Hf.
    + destruct (IH s1) as (Hfb & (tl & Htl) & Hall & Hlt & _).
      split; [| split; [| split; [| split]]].
      * rewrite Hfb, Hf, <- app_assoc. reflexivity.
      * exists tl. cbn. now rewrite <- Htl.
      * intros H. now rewrite Hall.
      * intros H. specialize (Hlt H). cbn. lia.
      * intros m. apply handle_message_feedbacks.
    + cbn [state_of returned map]. rewrite Hf.
      split; [reflexivity | split; [now exists (msg :: rest) | split]].
      * discriminate.
      * split; [intros _; cbn; lia | intros m; apply handle_message_feedbacks].
Qed.

Lemma primary_queries_none evs :
  Forall not_primary evs -> primary_queries evs = [].
Proof.
  induction 1 as [| ev evs Hev _ IH]; [reflexivity |].
  destruct ev; simpl in *; try exact IH. contradiction.
Qed.

Lemma queries_bind_left {A B} (c : M A) (k : A -> M B) st q :
  (forall a, adds not_primary (k a)) ->
  primary_queries (trace (state_of (c st))) = q ->
  primary_queries (trace (state_of (bind c k st))) = q.
Proof.
  intros Hk Hq. unfold bind.
  destruct (c st) as [a s1 | e s1]; cbn [state_of] in *; [| exact Hq].
  destruct (Hk a s1) as (evs & -> & Hev).
  now rewrite primary_queries_app, (primary_queries_none _ Hev), app_nil_r.
Qed.

Lemma bind_print {B} line (k : unit -> M B) st :
  bind (print line) k st = k tt (emit (Print line) st).
Proof. reflexivity. Qed.

Lemma bind_get_state {B} (k : State -> M B) st :
  bind get_state k st = k st st.
Proof. reflexivity. Qed.

Lemma poll_queries since st :
  primary_queries (trace (state_of (poll_and_apply_ddls db since st)))
  = (primary_queries (trace st) ++ [since])%list.
Proof.
  unfold poll_and_apply_ddls. rewrite !bind_print.
  unfold bind at 1. unfold primary_fetch_ddls.
  destruct (primary_ddl_log db _ _) as [rows |].
  - rewrite bind_print. apply queries_bind_left.
    + intros r. apply adds_ret.
    + destruct (pr_ddl_loop rows since
                  (emit (Print (LogFound (List.length rows)))
                     (emit (PrimaryExecute DDL_LOG_QUERY since true)
                        (emit (Print (LogExecutingQuery since))
                           (emit (Print (LogPolling since)) st)))))
        as (evs & -> & Hev).
      rewrite !trace_emit, !primary_queries_app.
      rewrite (primary_queries_none evs)
        by (eapply Forall_impl; [| exact Hev]; now intros []).
      cbn. now rewrite !app_nil_r.
  - cbn [state_of]. rewrite !trace_emit, !primary_queries_app. cbn.
    now rewrite !app_nil_r.
Qed.

(** X11.  Every message asks the primary once, for the entries after the mark
    the previous message left, however its handling ends. *)
Theorem one_query_per_message msg st :
  primary_queries (trace (state_of (handle_message db msg st)))
  = (primary_queries (trace st) ++ [applied_ddl_lsn_str st])%list.
Proof.
  unfold handle_message. apply queries_bind_left.
  { intros _. apply adds_bind; [now apply adds_print | intros _].
    apply adds_bind;
      [apply (adds_weaken print_or_replica);
         [now intros [] | apply adds_for_each, pr_process_change] | intros _].
    apply adds_bind;
      [apply (adds_weaken print_or_replica);
         [now intros [] | apply pr_sweep_phase] | intros _].
    apply adds_bind;
      [apply (adds_weaken print_or_replica);
         [now intros [] | apply pr_sync_phase] | intros _].
    now apply (adds_one _ _ (SendFeedback (data_start msg))). }
  unfold poll_phase. rewrite !bind_print, bind_get_state, !bind_print.
  apply queries_bind_left.
  { intros s. apply adds_bind; [apply adds_set_applied_str | intros _].
    apply adds_bind; [apply adds_lift_result | intros i].
    apply adds_bind; [apply adds_set_applied_int | intros _].
    now apply adds_print. }
  rewrite poll_queries. cbn [applied_ddl_lsn_str emit].
  rewrite !trace_emit, !primary_queries_app. cbn.
  now rewrite !app_nil_r.
Qed.

End HandlerMore.

(** ** The mark and the immediate path *)

Section Mark.

Variable db : Databases.

(** What the poll phase leaves when it returns: the mark is the text
    the poll returned and the integer it decodes to. *)
Lemma poll_phase_normal msg st s1 :
  poll_phase db msg st = Normal tt s1 ->
  exists hw sA i,
    poll_and_apply_ddls db (applied_ddl_lsn_str st)
      (emit (Print (LogWalLSNString (int_to_lsn (data_start msg))))
         (emit (Print (LogAppliedDDLLSN (applied_ddl_lsn_str st)
                                        (applied_ddl_lsn_int st)))
            (emit (Print (LogCurrentLSN (data_start msg)))
               (emit (Print (LogEventJson msg))
                  (emit (Print LogWal2jsonEvent) st)))))
    = Normal hw sA
    /\ lsn_to_int hw = Ok i
    /\ s1 = emit (Print (LogAfterPolling hw i))
              (mkState hw i (BUFFERED_DMLS sA) (trace sA)).
Proof.
  unfold poll_phase. rewrite !bind_print, bind_get_state, !bind_print.
  cbn [applied_ddl_lsn_str applied_ddl_lsn_int emit].
  intros H. apply bind_inv_normal in H as (hw & sA & Hpoll & H).
  exists hw, sA.
  unfold bind at 1 in H. unfold set_applied_str at 1 in H.
  unfold bind at 1 in H.
  destruct (lsn_to_int hw) as [i | e]; cbn [lift_result ret raise] in H;
    [| discriminate].
  exists i. split; [exact Hpoll | split; [reflexivity |]].
  unfold bind, set_applied_int, print in H. cbn in H.
  injection H as <-. reflexivity.
Qed.

Lemma mark_after_poll msg :
  preserves mark
    (print (LogNumberOfChanges (List.length (changes_of msg))) ;;
     for_each (changes_of msg) (process_change db msg) ;;
     sweep_phase db msg ;;
     sync_phase db msg ;;
     send_feedback (data_start msg)).
Proof.
  apply preserves_bind; [apply mark_print | intros _].
  apply preserves_bind;
    [apply preserves_for_each; intros c; apply mark_process_change | intros _].
  apply preserves_bind; [apply mark_sweep_phase | intros _].
  apply preserves_bind; [apply mark_sync_phase | intros _].
  apply mark_send_feedback.
Qed.

Lemma handle_message_mark msg st st' :
  handle_message db msg st = Normal tt st' -> mark_consistent st'.
Proof.
  unfold handle_message. intros H.
  apply bind_inv_normal in H as ([] & s1 & Hpoll & H).
  apply poll_phase_normal in Hpoll as (hw & sA & i & _ & Hi & ->).
  pose proof (preserves_normal mark _ _ _ _ (mark_after_poll msg) H) as Hm.
  unfold mark in Hm. cbn in Hm. injection Hm as Hs Hint.
  unfold mark_consistent. now rewrite Hs, Hint.
Qed.

(** X12.  The two variables of the mark agree along the stream: after any
    number of messages handled from the initial state, the text of the
    applied DDL position decodes to its integer. *)
Theorem mark_consistent_along_stream msgs st' :
  consume_stream db msgs initial_state = Normal tt st' ->
  mark_consistent st'.
Proof.
  assert (Hgen : forall ms st, mark_consistent st ->
            consume_stream db ms st = Normal tt st' -> mark_consistent st').
  { induction ms as [| msg rest IH]; intros st Hst H.
    - injection H as <-. exact Hst.
    - cbn [consume_stream] in H.
      apply bind_inv_normal in H as ([] & s1 & Hmsg & Hrest).
      apply (IH s1); [| exact Hrest]. now apply (handle_message_mark msg st). }
  apply Hgen. reflexivity.
Qed.

Lemma ascending_from_all rows : forall since,
  ascending_from since rows = true ->
  Forall (fun row => lsn_ltb since (lsn row) = true) rows.
Proof.
  induction rows as [| row rest IH]; intros since H; [constructor |].
  simpl in H. apply andb_true_iff in H as [Hlt H].
  constructor; [exact Hlt |].
  eapply Forall_impl; [| apply (IH _ H)].
  intros r Hr. eapply lsn_ltb_leb_trans; [exact Hlt | now apply lsn_ltb_leb].
Qed.

(** X13.  The gate of the immediate path keeps the order of schema and row
    changes.  When the log is fetched in ascending order and, after the
    poll, the position of the message is not after the mark, every
    fetched DDL entry at or before the position of the message has been
    executed successfully or skipped as administrative. *)
Theorem immediate_path_follows_ddl msg st s1 rows :
  (forall tr, primary_ddl_log db tr (applied_ddl_lsn_str st) = Some rows) ->
  ascending_from (applied_ddl_lsn_str st) rows = true ->
  poll_phase db msg st = Normal tt s1 ->
  data_start msg <= applied_ddl_lsn_int s1 ->
  forall row x,
    In row rows -> lsn_to_int (lsn row) = Ok x -> x <= data_start msg ->
    ddl_done (trace s1) row.
Proof.
  intros Hfetch Hasc Hpoll Hgate row x Hin Hx Hle.
  apply poll_phase_normal in Hpoll as (hw & sA & i & Hp & Hi & ->).
  cbn in Hgate.
  rewrite (poll_and_apply_ddls_fetched db _ _ rows (Hfetch _)) in Hp.
  apply bind_inv_normal in Hp as ([hw' flag] & sB & Hloop & Hret).
  injection Hret as <- <-.
  destruct (ddl_loop_split db rows _ _ _ _ _ Hloop)
    as (done & rest & -> & Hhw & Hdone & _ & _).
  rewrite trace_emit. cbn [trace]. apply ddl_done_extends.
  apply in_app_or in Hin as [Hin | Hin].
  - rewrite Forall_forall in Hdone. now apply Hdone.
  - exfalso.
    apply ascending_from_app in Hasc as [_ Hrest].
    rewrite <- Hhw in Hrest.
    pose proof (ascending_from_all _ _ Hrest) as Hall.
    rewrite Forall_forall in Hall. specialize (Hall _ Hin).
    unfold lsn_ltb in Hall. cbn [fst] in Hi. rewrite Hi, Hx in Hall.
    apply Z.ltb_lt in Hall. lia.
Qed.

End Mark.

Lemma mark_consistent_along_stream_witness :
  mark_consistent
    (state_of (consume_stream (db_with_log replay_rows (fun _ => true))
                 [insert_message; mkMessage 12 (Some [update_change])]
                 initial_state)).
Proof.
  apply (mark_consistent_along_stream
           (db_with_log replay_rows (fun _ => true))
           [insert_message; mkMessage 12 (Some [update_change])]).
  vm_compute. reflexivity.
Defined.

Lemma immediate_path_follows_ddl_witness :
  let db := db_with_log replay_rows (fun _ => true) in
  let s1 := state_of (poll_phase db insert_message initial_state) in
  ddl_done (trace s1)
    (mkDdlRow "0/9" "CREATE TABLE b (id int REFERENCES missing)").
Proof.
  intros db s1.
  apply (immediate_path_follows_ddl db insert_message initial_state s1
           replay_rows) with (x := 9).
  - intros tr. reflexivity.
  - reflexivity.
  - vm_compute. reflexivity.
  - vm_compute. discriminate.
  - cbn. tauto.
  - reflexivity.
  - cbn. lia.
Defined.

(** ** Row changes of a message *)

Section RowChanges.

Variable db : Databases.

(** [apply_dml] on a change that translates to a statement sends that
    statement, once, and touches neither the buffer nor the mark. *)
Lemma apply_dml_sends c st :
  dml_statement c <> None ->
  exists st',
    apply_dml db c st = Normal tt st'
    /\ sent st' = (sent st ++ [statement_of c])%list
    /\ BUFFERED_DMLS st' = BUFFERED_DMLS st
    /\ mark st' = mark st.
Proof.
  intros Hc. unfold sent, statement_of.
  destruct (dml_statement c) as [[[line sql] params] |] eqn:Hs; [| congruence].
  rewrite (apply_dml_statement db c line sql params st Hs).
  destruct (replica_accepts db _ _ _); eexists; (split; [reflexivity |]);
    rewrite !trace_emit, !replica_statements_app, !map_app; cbn;
    rewrite ?app_nil_r, <- ?app_assoc; auto.
Qed.

Lemma process_change_noise msg c st :
  is_noise c = true ->
  process_change db msg c st = Normal tt (emit (Print LogSkippingChange) st).
Proof. unfold process_change, is_noise. now intros ->. Qed.

Lemma process_change_immediate msg c st :
  is_noise c = false ->
  data_start msg <= applied_ddl_lsn_int st ->
  process_change db msg c st
  = apply_dml db c
      (emit (Print LogApplyingImmediately)
         (emit (Print (LogProcessingDML (table c) (data_start msg))) st)).
Proof.
  unfold process_change, is_noise. intros -> Hle.
  rewrite bind_print, bind_get_state. cbn [applied_ddl_lsn_int emit].
  replace (data_start msg >? applied_ddl_lsn_int st) with false
    by (symmetry; rewrite Z.gtb_ltb; apply Z.ltb_ge; lia).
  now rewrite bind_print.
Qed.

Lemma process_change_buffered msg c st :
  is_noise c = false ->
  applied_ddl_lsn_int st < data_start msg ->
  process_change db msg c st
  = Normal tt
      (mkState (applied_ddl_lsn_str st) (applied_ddl_lsn_int st)
         (BUFFERED_DMLS st ++ [(data_start msg, c)])
         (trace st
          ++ [Print (LogProcessingDML (table c) (data_start msg))]
          ++ [Print (LogBuffering (data_start msg) (applied_ddl_lsn_int st))])).
Proof.
  unfold process_change, is_noise. intros -> Hlt.
  rewrite bind_print, bind_get_state. cbn [applied_ddl_lsn_int emit].
  replace (data_start msg >? applied_ddl_lsn_int st) with true
    by (symmetry; rewrite Z.gtb_ltb; apply Z.ltb_lt; lia).
  rewrite bind_print. unfold set_buffer, emit. cbn.
  now rewrite <- app_assoc.
Qed.

Lemma sent_emit_print line st : sent (emit (Print line) st) = sent st.
Proof.
  unfold sent. rewrite trace_emit, replica_statements_app. cbn.
  now rewrite app_nil_r.
Qed.

(** The loop over the changes when the gate is open: every row change
    is sent, in order. *)
Lemma changes_loop_immediate msg cs : forall st,
  data_start msg <= applied_ddl_lsn_int st ->
  Forall (fun c => dml_statement c <> None)
         (filter (fun c => negb (is_noise c)) cs) ->
  exists st',
    for_each cs (process_change db msg) st = Normal tt st'
    /\ sent st'
       = (sent st ++ map statement_of (filter (fun c => negb (is_noise c)) cs))%list
    /\ BUFFERED_DMLS st' = BUFFERED_DMLS st
    /\ mark st' = mark st.
Proof.
  induction cs as [| c cs IH]; intros st Hgate Hall.
  - exists st. cbn. now rewrite app_nil_r.
  - cbn [for_each filter] in *. destruct (is_noise c) eqn:Hn; cbn [negb] in *.
    + unfold bind at 1. rewrite (process_change_noise msg c st Hn).
      destruct (IH (emit (Print LogSkippingChange) st) Hgate Hall)
        as (st' & Hrun & Hsent & Hbuf & Hmark).
      exists st'. split; [exact Hrun |].
      rewrite Hsent, Hbuf, Hmark, sent_emit_print. conjs; reflexivity.
    + inversion Hall as [| ? ? Hc Hall']; subst.
      unfold bind at 1. rewrite (process_change_immediate msg c st Hn Hgate).
      destruct (apply_dml_sends c
                  (emit (Print LogApplyingImmediately)
                     (emit (Print (LogProcessingDML (table c) (data_start msg)))
                        st)) Hc)
        as (s1 & -> & Hsent1 & Hbuf1 & Hmark1).
      assert (Hgate1 : data_start msg <= applied_ddl_lsn_int s1).
      { unfold mark in Hmark1. cbn in Hmark1. injection Hmark1 as _ ->.
        exact Hgate. }
      destruct (IH s1 Hgate1 Hall') as (st' & Hrun & Hsent & Hbuf & Hmark).
      exists st'. split; [exact Hrun |].
      rewrite Hsent, Hsent1, Hbuf, Hbuf1, Hmark, Hmark1, !sent_emit_print.
      cbn [map]. rewrite <- app_assoc. conjs; reflexivity.
Qed.

(** The loop over the changes when the gate is closed: every row change
    is appended to the buffer, in order, and nothing is sent. *)
Lemma changes_loop_buffering msg cs : forall st,
  applied_ddl_lsn_int st < data_start msg ->
  exists st',
    for_each cs (process_change db msg) st = Normal tt st'
    /\ sent st' = sent st
    /\ BUFFERED_DMLS st'
       = (BUFFERED_DMLS st
          ++ map (pair (data_start msg))
                 (filter (fun c => negb (is_noise c)) cs))%list
    /\ mark st' = mark st.
Proof.
  induction cs as [| c cs IH]; intros st Hgate.
  - exists st. cbn. now rewrite app_nil_r.
  - cbn [for_each filter]. destruct (is_noise c) eqn:Hn; cbn [negb].
    + unfold bind at 1. rewrite (process_change_noise msg c st Hn).
      destruct (IH (emit (Print LogSkippingChange) st) Hgate)
        as (st' & Hrun & Hsent & Hbuf & Hmark).
      exists st'. split; [exact Hrun |].
      rewrite Hsent, Hbuf, Hmark, sent_emit_print. conjs; reflexivity.
    + unfold bind at 1. rewrite (process_change_buffered msg c st Hn Hgate).
      match goal with
      | |- context [for_each cs _ ?s] =>
          destruct (IH s Hgate) as (st' & Hrun & Hsent & Hbuf & Hmark)
      end.
      exists st'. split; [exact Hrun |].
      rewrite Hsent, Hbuf, Hmark. cbn [BUFFERED_DMLS map].
      rewrite <- app_assoc. conjs; try reflexivity.
      unfold sent. cbn [trace]. rewrite !replica_statements_app. cbn.
      now rewrite !app_nil_r.
Qed.

(** The sweep over entries buffered by the message itself: each is
    sent, in order, and none is kept. *)
Lemma sweep_loop_own_entries msg cs : forall still st,
  Forall (fun c => dml_statement c <> None) cs ->
  exists st',
    sweep_loop db msg (map (pair (data_start msg)) cs) still st
    = Normal still st'
    /\ sent st' = (sent st ++ map statement_of cs)%list
    /\ BUFFERED_DMLS st' = BUFFERED_DMLS st
    /\ mark st' = mark st.
Proof.
  induction cs as [| c cs IH]; intros still st Hall.
  - exists st. cbn. now rewrite app_nil_r.
  - inversion Hall as [| ? ? Hc Hall']; subst.
    cbn [map sweep_loop]. rewrite Z.leb_refl, bind_print.
    destruct (apply_dml_sends c
                (emit (Print (LogApplyingBuffered (data_start msg))) st) Hc)
      as (s1 & Hrun1 & Hsent1 & Hbuf1 & Hmark1).
    rewrite (bind_normal _ _ _ _ _ Hrun1).
    destruct (IH still s1 Hall') as (st' & Hrun & Hsent & Hbuf & Hmark).
    exists st'. split; [exact Hrun |].
    rewrite Hsent, Hsent1, Hbuf, Hbuf1, Hmark, Hmark1, sent_emit_print.
    rewrite <- app_assoc. conjs; reflexivity.
Qed.

(** X14.  Every row change of a message is sent to the replica once, in the
    order of the change list, before the sequences are synchronized.
    From an empty buffer, once the poll has returned and whichever way
    the gate stands, the handler reaches the synchronization having sent
    exactly the statements of the changes that are not against the
    DDL-log table, in order; the buffer is empty again and the mark is
    the one the poll left. *)
Theorem row_changes_sent_once_in_order msg st s1 :
  BUFFERED_DMLS st = [] ->
  Forall (fun c => dml_statement c <> None) (row_changes msg) ->
  poll_phase db msg st = Normal tt s1 ->
  exists s2,
    before_sync db msg st = Normal tt s2
    /\ sent s2 = (sent s1 ++ map statement_of (row_changes msg))%list
    /\ BUFFERED_DMLS s2 = []
    /\ mark s2 = mark s1.
Proof.
  intros Hempty Hall Hpoll. unfold before_sync.
  rewrite (bind_normal _ _ _ _ _ Hpoll), bind_print.
  assert (Hbuf1 : BUFFERED_DMLS s1 = []).
  { now rewrite (keeps_normal _ _ _ _ (keeps_poll_phase db msg) Hpoll). }
  set (s1' := emit (Print (LogNumberOfChanges (List.length (changes_of msg)))) s1).
  assert (Hsent1 : sent s1' = sent s1) by apply sent_emit_print.
  assert (Hb1' : BUFFERED_DMLS s1' = []) by exact Hbuf1.
  assert (Hm1' : mark s1' = mark s1) by reflexivity.
  destruct (Z_le_gt_dec (data_start msg) (applied_ddl_lsn_int s1)) as [Hle | Hgt].
  - destruct (changes_loop_immediate msg (changes_of msg) s1' Hle Hall)
      as (s2 & Hrun & Hsent & Hbuf & Hmark).
    rewrite (bind_normal _ _ _ _ _ Hrun).
    unfold sweep_phase. rewrite bind_get_state, Hbuf, Hb1'.
    exists s2. split; [reflexivity |].
    rewrite Hsent, Hsent1, Hbuf, Hb1', Hmark, Hm1'. conjs; reflexivity.
  - assert (Hgate : applied_ddl_lsn_int s1' < data_start msg) by (cbn; lia).
    destruct (changes_loop_buffering msg (changes_of msg) s1' Hgate)
      as (s2 & Hrun & Hsent & Hbuf & Hmark).
    rewrite (bind_normal _ _ _ _ _ Hrun).
    rewrite Hb1' in Hbuf. cbn [app] in Hbuf. fold (row_changes msg) in Hbuf.
    unfold sweep_phase. rewrite bind_get_state, Hbuf.
    destruct (sweep_loop_own_entries msg (row_changes msg) []
                (emit (Print LogCheckingBuffered) s2) Hall)
      as (s3 & Hsweep & Hsent3 & Hbuf3 & Hmark3).
    destruct (row_changes msg) as [| c cs] eqn:Hrc.
    + exists s2. split; [reflexivity |]. cbn [map]. rewrite app_nil_r.
      rewrite Hsent, Hsent1. split; [reflexivity | split; [exact Hbuf |]].
      now rewrite Hmark.
    + cbn [map] in *. rewrite bind_print.
      rewrite (bind_normal _ _ _ _ _ Hsweep).
      unfold bind, set_buffer, print. cbn [List.length].
      eexists. split; [reflexivity |].
      rewrite sent_emit_print.
      replace (sent (mkState (applied_ddl_lsn_str s3) (applied_ddl_lsn_int s3)
                       [] (trace s3))) with (sent s3) by reflexivity.
      rewrite Hsent3, sent_emit_print, Hsent, Hsent1.
      conjs; try reflexivity.
      change (mark s3 = mark s1). rewrite Hmark3.
      change (mark s2 = mark s1). now rewrite Hmark.
Qed.

End RowChanges.

Lemma row_changes_sent_once_in_order_witness :
  let s1 := state_of (poll_phase db_failing_ddl mixed_message initial_state) in
  exists s2,
    before_sync db_failing_ddl mixed_message initial_state = Normal tt s2
    /\ sent s2 = (sent s1 ++ map statement_of (row_changes mixed_message))%list
    /\ BUFFERED_DMLS s2 = []
    /\ mark s2 = mark s1.
Proof.
  intros s1.
  apply (row_changes_sent_once_in_order db_failing_ddl mixed_message
           initial_state s1).
  - reflexivity.
  - vm_compute. repeat constructor; discriminate.
  - vm_compute. reflexivity.
Defined.

Example mixed_message_statements :
  map statement_of (row_changes mixed_message)
  = [ "INSERT INTO t (id, name) VALUES (%s, %s)";
      "UPDATE t SET name = %s WHERE id = %s" ].
Proof. reflexivity. Qed.

(** ** Unknown kinds and the synchronizer *)

Section Edges.

Variable db : Databases.

(** X9.  A change whose kind is none of insert, update and delete is only
    reported: [apply_dml] prints the kind, sends nothing to the replica
    and returns normally. *)
Theorem unsupported_operation_is_skipped c st t cols vals op :
  table c = Some t -> columnnames c = Some cols ->
  columnvalues c = Some vals -> kind c = Some op ->
  op <> "insert" -> op <> "update" -> op <> "delete" ->
  apply_dml db c st
  = Normal tt (emit (Print (LogUnsupportedOperation op)) st).
Proof.
  intros Ht Hc Hv Hk Hi Hu Hd. unfold apply_dml. rewrite Ht, Hc, Hv, Hk.
  cbn [getitem]. unfold bind at 1 2 3 4. unfold ret at 1 2 3 4.
  apply String.eqb_neq in Hi, Hu, Hd. rewrite Hi, Hu, Hd.
  reflexivity.
Qed.

Lemma sync_loop_all_accepted rows : forall st,
  (forall tr sql params, replica_accepts db tr sql params = true) ->
  exists st',
    for_each rows (sync_one db) st = Normal tt st'
    /\ replica_statements (trace st')
       = (replica_statements (trace st)
          ++ map (fun row =>
                    (setval_sql (seq_column row)
                       (seq_schema row ++ "." ++ seq_table row), true)) rows)%list.
Proof.
  intros st Hacc. revert st.
  induction rows as [| row rows IH]; intros st.
  - exists st. cbn. now rewrite app_nil_r.
  - cbn [for_each]. unfold bind at 1. unfold sync_one at 1.
    rewrite bind_print. unfold replica_execute. rewrite Hacc.
    match goal with
    | |- context [for_each rows _ ?s] => destruct (IH s) as (st' & Hrun & Hst)
    end.
    exists st'. split; [exact Hrun |].
    rewrite Hst, !trace_emit, !replica_statements_app. cbn.
    now rewrite !app_nil_r, <- app_assoc.
Qed.

(** X10.  When the replica accepts what it is sent, the synchronizer sends
    the catalog query and then one [setval] statement for each row the
    catalog query returned, in the order of the rows, and returns. *)
Theorem sync_sequences_in_catalog_order st :
  (forall tr sql params, replica_accepts db tr sql params = true) ->
  exists st',
    sync_sequences db st = Normal tt st'
    /\ replica_statements (trace st')
       = (replica_statements (trace st)
          ++ sync_statements
               (replica_sequences db
                  (trace (emit (ReplicaExecute SEQ_QUERY [] true) st))))%list.
Proof.
  intros Hacc. unfold sync_sequences.
  unfold bind at 1. unfold replica_execute at 1. rewrite Hacc.
  unfold bind at 1. unfold replica_fetch_sequences.
  destruct (sync_loop_all_accepted
              (replica_sequences db
                 (trace (emit (ReplicaExecute SEQ_QUERY [] true) st)))
              (emit (ReplicaExecute SEQ_QUERY [] true) st) Hacc)
    as (st' & Hrun & Hst).
  exists st'. split; [exact Hrun |].
  rewrite Hst, trace_emit, replica_statements_app. cbn.
  now rewrite <- app_assoc.
Qed.

End Edges.

Lemma unsupported_operation_is_skipped_witness :
  apply_dml db_reject_all truncate_change initial_state
  = Normal tt (emit (Print (LogUnsupportedOperation "truncate")) initial_state).
Proof.
  apply (unsupported_operation_is_skipped db_reject_all truncate_change
           initial_state "t" [] [] "truncate");
    first [reflexivity | discriminate].
Defined.

Lemma sync_sequences_in_catalog_order_witness :
  exists st',
    sync_sequences db_sequences_ok initial_state = Normal tt st'
    /\ replica_statements (trace st')
       = (replica_statements (trace initial_state)
          ++ sync_statements
               (replica_sequences db_sequences_ok
                  (trace (emit (ReplicaExecute SEQ_QUERY [] true)
                            initial_state))))%list.
Proof.
  apply (sync_sequences_in_catalog_order db_sequences_ok initial_state).
  intros; reflexivity.
Defined.

(** ** What cannot stop a message *)

Section Liveness.

Variable db : Databases.

Lemma last_in {A} (l : list A) : forall x d, In (last (x :: l) d) (x :: l).
Proof.
  induction l as [| y l IH]; intros x d; [now left |].
  change (last (x :: y :: l) d) with (last (y :: l) d). right. apply IH.
Qed.

Lemma last_default_or_in {A} (l : list A) d : last l d = d \/ In (last l d) l.
Proof. destruct l as [| x l]; [now left | right; apply last_in]. Qed.

Lemma poll_returns since st :
  primary_answers db ->
  accepted_lsn_text since = true ->
  exists hw sA i,
    poll_and_apply_ddls db since st = Normal hw sA /\ lsn_to_int hw = Ok i.
Proof.
  intros Hprim Hsince.
  destruct (Hprim (trace (emit (Print (LogExecutingQuery since))
                            (emit (Print (LogPolling since)) st))) since)
    as (rows & Hfetch & Hrows).
  rewrite (poll_and_apply_ddls_fetched db since st rows Hfetch).
  match goal with
  | |- context [bind _ _ ?s] => set (st0 := s)
  end.
  destruct (ddl_loop_returns db rows since st0) as ([hw flag] & sA & Hloop).
  destruct (ddl_loop_split db rows _ _ _ _ _ Hloop)
    as (done & rest & -> & Hhw & _).
  assert (Hacc : accepted_lsn_text hw = true).
  { rewrite Hhw. destruct (last_default_or_in (map lsn done) since) as [-> | Hin].
    - exact Hsince.
    - apply in_map_iff in Hin as (row & <- & Hin).
      rewrite Forall_forall in Hrows. apply Hrows, in_or_app. now left. }
  destruct (lsn_to_int_accepts hw Hacc) as (i & Hi).
  exists hw, sA, i. rewrite (bind_normal _ _ _ _ _ Hloop). now split.
Qed.

Lemma poll_phase_returns msg st :
  primary_answers db ->
  accepted_lsn_text (applied_ddl_lsn_str st) = true ->
  exists s1, poll_phase db msg st = Normal tt s1.
Proof.
  intros Hprim Hsince. unfold poll_phase.
  rewrite !bind_print, bind_get_state, !bind_print.
  cbn [applied_ddl_lsn_str applied_ddl_lsn_int emit].
  match goal with
  | |- context [poll_and_apply_ddls db ?since] =>
      match goal with
      | |- context [bind _ _ ?s] =>
          destruct (poll_returns since s Hprim Hsince) as (hw & sA & i & Hp & Hi)
      end
  end.
  rewrite (bind_normal _ _ _ _ _ Hp).
  unfold bind, set_applied_str, set_applied_int, print. rewrite Hi.
  cbn. eauto.
Qed.

Lemma changes_loop_returns msg cs : forall st,
  Forall has_keys cs ->
  Forall (fun entry : Z * Change => has_keys (snd entry)) (BUFFERED_DMLS st) ->
  exists st',
    for_each cs (process_change db msg) st = Normal tt st'
    /\ Forall (fun entry : Z * Change => has_keys (snd entry)) (BUFFERED_DMLS st').
Proof.
  induction cs as [| c cs IH]; intros st Hcs Hbuf.
  - now exists st.
  - inversion Hcs as [| ? ? Hc Hcs']; subst.
    destruct Hc as (Ht & Hn & Hv & Hk).
    destruct (process_change_returns db msg c st Ht Hn Hv Hk) as (s1 & Hrun).
    cbn [for_each]. rewrite (bind_normal _ _ _ _ _ Hrun).
    apply IH; [exact Hcs' |].
    destruct (process_change_buffer db _ _ _ _ Hrun) as [-> | ->];
      [exact Hbuf |].
    apply Forall_app. split; [exact Hbuf |].
    constructor; [| constructor]. cbn. now repeat split.
Qed.

Lemma sweep_loop_returns msg buffered : forall still st,
  Forall (fun entry : Z * Change => has_keys (snd entry)) buffered ->
  exists r st', sweep_loop db msg buffered still st = Normal r st'.
Proof.
  induction buffered as [| [l c] rest IH]; intros still st Hall.
  - now exists still, st.
  - inversion Hall as [| ? ? Hc Hall']; subst. cbn [sweep_loop].
    destruct (l <=? data_start msg); [| now apply IH].
    rewrite bind_print. destruct Hc as (Ht & Hn & Hv & Hk).
    destruct (apply_dml_returns db c
                (emit (Print (LogApplyingBuffered l)) st) Ht Hn Hv Hk)
      as (s1 & Hrun).
    rewrite (bind_normal _ _ _ _ _ Hrun). now apply IH.
Qed.

Lemma sweep_phase_returns msg st :
  Forall (fun entry : Z * Change => has_keys (snd entry)) (BUFFERED_DMLS st) ->
  exists st', sweep_phase db msg st = Normal tt st'.
Proof.
  intros Hall. unfold sweep_phase. rewrite bind_get_state.
  destruct (BUFFERED_DMLS st) as [| entry rest] eqn:Hbuf; [now exists st |].
  rewrite bind_print.
  destruct (sweep_loop_returns msg (entry :: rest) []
              (emit (Print LogCheckingBuffered) st) Hall) as (r & s1 & Hrun).
  rewrite (bind_normal _ _ _ _ _ Hrun).
  unfold bind, set_buffer, print. eauto.
Qed.

Lemma sync_loop_returns rows : forall st,
  sync_always_accepted db ->
  exists st', for_each rows (sync_one db) st = Normal tt st'.
Proof.
  intros st [_ Hacc]. revert st.
  induction rows as [| row rows IH]; intros st; [now exists st |].
  cbn [for_each]. unfold bind at 1. unfold sync_one at 1.
  rewrite bind_print. unfold replica_execute. rewrite Hacc. apply IH.
Qed.

Lemma sync_phase_returns msg st :
  sync_always_accepted db ->
  exists st', sync_phase db msg st = Normal tt st'.
Proof.
  intros Hacc. unfold sync_phase.
  destruct (changes_of msg); [now exists st |].
  rewrite bind_print. unfold sync_sequences.
  unfold bind at 1. unfold replica_execute at 1.
  rewrite (proj1 Hacc). unfold bind at 1. unfold replica_fetch_sequences.
  now apply sync_loop_returns.
Qed.

(** X15.  Rejected schema and row changes never stop a message.  When the
    primary answers the DDL-log query with LSN texts the decoder reads,
    every change of the message and of the buffer has its four top-level
    entries, and the replica accepts the statements of the sequence
    synchronizer, [handle_message] returns normally and acknowledges the
    message, whatever the replica answers to the DDL and DML statements
    it is sent. *)
Theorem message_handled_despite_rejections msg st :
  primary_answers db ->
  sync_always_accepted db ->
  accepted_lsn_text (applied_ddl_lsn_str st) = true ->
  Forall has_keys (changes_of msg) ->
  Forall (fun entry : Z * Change => has_keys (snd entry)) (BUFFERED_DMLS st) ->
  exists st',
    handle_message db msg st = Normal tt st'
    /\ feedbacks (trace st') = (feedbacks (trace st) ++ [data_start msg])%list.
Proof.
  intros Hprim Hsync Hsince Hcs Hbuf.
  assert (Hrun : exists st', handle_message db msg st = Normal tt st').
  { unfold handle_message.
    destruct (poll_phase_returns msg st Hprim Hsince) as (s1 & Hpoll).
    rewrite (bind_normal _ _ _ _ _ Hpoll), bind_print.
    assert (Hbuf1 : Forall (fun entry : Z * Change => has_keys (snd entry))
                      (BUFFERED_DMLS
                         (emit (Print (LogNumberOfChanges
                                         (List.length (changes_of msg)))) s1))).
    { rewrite buffer_emit.
      now rewrite (keeps_normal _ _ _ _ (keeps_poll_phase db msg) Hpoll). }
    destruct (changes_loop_returns msg (changes_of msg) _ Hcs Hbuf1)
      as (s2 & Hloop & Hbuf2).
    rewrite (bind_normal _ _ _ _ _ Hloop).
    destruct (sweep_phase_returns msg s2 Hbuf2) as (s3 & Hsweep).
    rewrite (bind_normal _ _ _ _ _ Hsweep).
    destruct (sync_phase_returns msg s3 Hsync) as (s4 & Hs).
    rewrite (bind_normal _ _ _ _ _ Hs). unfold send_feedback. eauto. }
  destruct Hrun as (st' & Hrun). exists st'. split; [exact Hrun |].
  pose proof (handle_message_feedbacks db msg st) as Hf.
  now rewrite Hrun in Hf.
Qed.

End Liveness.

Lemma message_handled_despite_rejections_witness :
  exists st',
    handle_message db_only_sync mixed_message initial_state = Normal tt st'
    /\ feedbacks (trace st')
       = (feedbacks (trace initial_state) ++ [data_start mixed_message])%list.
Proof.
  apply (message_handled_despite_rejections db_only_sync mixed_message
           initial_state).
  - intros tr since. exists replay_rows. split; [reflexivity |].
    repeat constructor.
  - split; intros; reflexivity.
  - reflexivity.
  - repeat constructor; discriminate.
  - constructor.
Defined.

(** In that run every schema and row change was rejected. *)
Example only_sync_run :
  replica_statements
    (trace (state_of (handle_message db_only_sync mixed_message initial_state)))
  = [ ("CREATE TABLE a (id int)", false);
      ("INSERT INTO t (id, name) VALUES (%s, %s)", false);
      ("UPDATE t SET name = %s WHERE id = %s", false);
      (SEQ_QUERY, true);
      (setval_sql "id" "public.a", true);
      (setval_sql "id" "public.t", true) ].
Proof. vm_compute. reflexivity. Qed.

(** ** Changes without their top-level entries *)

Section MissingKeys.

Variable db : Databases.

Lemma apply_dml_missing_key c st :
  ~ has_keys c -> exists k, apply_dml db c st = Raise (KeyError k) st.
Proof.
  unfold has_keys, apply_dml. intros H.
  destruct (table c) as [t |]; [| now exists "table"].
  destruct (columnnames c) as [cols |]; [| now exists "columnnames"].
  destruct (columnvalues c) as [vals |]; [| now exists "columnvalues"].
  destruct (kind c) as [op |]; [| now exists "kind"].
  exfalso. apply H. repeat split; discriminate.
Qed.

Lemma apply_dml_only_key_errors c st e st' :
  apply_dml db c st = Raise e st' -> exists k, e = KeyError k.
Proof.
  unfold apply_dml.
  destruct (table c) as [t |]; [| intros H; injection H as <- _; eauto].
  destruct (columnnames c) as [cols |]; [| intros H; injection H as <- _; eauto].
  destruct (columnvalues c) as [vals |]; [| intros H; injection H as <- _; eauto].
  destruct (kind c) as [op |]; [| intros H; injection H as <- _; eauto].
  cbn [getitem]. unfold bind at 1 2 3 4. unfold ret at 1 2 3 4.
  unfold try_except.
  match goal with
  | |- match ?body st with _ => _ end = _ -> _ =>
      destruct (body st) as [[] s1 | e1 s1]
  end; discriminate.
Qed.

Lemma process_change_only_key_errors msg c st e st' :
  process_change db msg c st = Raise e st' -> exists k, e = KeyError k.
Proof.
  unfold process_change.
  destruct (match table c with
            | Some t => String.eqb t "translicate_ddl_log"
            | None => false
            end); [discriminate |].
  rewrite bind_print, bind_get_state.
  destruct (data_start msg >? _); [discriminate |].
  rewrite bind_print. apply apply_dml_only_key_errors.
Qed.

(** With the gate open, the loop over the changes raises at the first
    change without its entries. *)
Lemma changes_loop_raises msg c cs : forall st,
  data_start msg <= applied_ddl_lsn_int st ->
  In c cs -> is_noise c = false -> ~ has_keys c ->
  exists k st', for_each cs (process_change db msg) st = Raise (KeyError k) st'.
Proof.
  induction cs as [| x cs IH]; intros st Hgate Hin Hn Hk; [contradiction |].
  cbn [for_each]. unfold bind.
  destruct (process_change db msg x st) as [[] s1 | e s1] eqn:Hx.
  - destruct Hin as [-> | Hin].
    + rewrite (process_change_immediate db msg c st Hn Hgate) in Hx.
      destruct (apply_dml_missing_key c
                  (emit (Print LogApplyingImmediately)
                     (emit (Print (LogProcessingDML (table c) (data_start msg)))
                        st)) Hk) as (k & Hr).
      rewrite Hr in Hx. discriminate.
    + apply IH; try assumption.
      pose proof (preserves_normal mark _ _ _ _ (mark_process_change db msg x) Hx)
        as Hm.
      unfold mark in Hm. injection Hm as _ ->. exact Hgate.
  - destruct (process_change_only_key_errors _ _ _ _ _ Hx) as (k & ->). eauto.
Qed.

(** The sweep over entries at the position of the message raises at the
    first change without its entries. *)
Lemma sweep_loop_raises msg c cs : forall still st,
  In c cs -> ~ has_keys c ->
  exists k st',
    sweep_loop db msg (map (pair (data_start msg)) cs) still st
    = Raise (KeyError k) st'.
Proof.
  induction cs as [| x cs IH]; intros still st Hin Hk; [contradiction |].
  cbn [map sweep_loop]. rewrite Z.leb_refl, bind_print. unfold bind.
  destruct (apply_dml db x (emit (Print (LogApplyingBuffered (data_start msg))) st))
    as [[] s1 | e s1] eqn:Hx.
  - destruct Hin as [-> | Hin].
    + destruct (apply_dml_missing_key c
                  (emit (Print (LogApplyingBuffered (data_start msg))) st) Hk)
        as (k & Hr).
      rewrite Hr in Hx. discriminate.
    + now apply IH.
  - destruct (apply_dml_only_key_errors _ _ _ _ Hx) as (k & ->). eauto.
Qed.

(** X16.  A row change without one of its four top-level entries stops the
    stream.  From an empty buffer, once the poll has returned, a message
    that holds such a change (not against the DDL-log table) makes
    [handle_message] raise a [KeyError], whichever way the gate stands,
    and the message is not acknowledged. *)
Theorem change_without_keys_stops_message msg st s1 c :
  BUFFERED_DMLS st = [] ->
  poll_phase db msg st = Normal tt s1 ->
  In c (changes_of msg) -> is_noise c = false -> ~ has_keys c ->
  exists k st',
    handle_message db msg st = Raise (KeyError k) st'
    /\ feedbacks (trace st') = feedbacks (trace st).
Proof.
  intros Hempty Hpoll Hin Hn Hk.
  assert (Hrun : exists k st', handle_message db msg st = Raise (KeyError k) st').
  { unfold handle_message.
    rewrite (bind_normal _ _ _ _ _ Hpoll), bind_print.
    assert (Hbuf1 : BUFFERED_DMLS s1 = []).
    { now rewrite (keeps_normal _ _ _ _ (keeps_poll_phase db msg) Hpoll). }
    set (s1' := emit (Print (LogNumberOfChanges
                               (List.length (changes_of msg)))) s1).
    destruct (Z_le_gt_dec (data_start msg) (applied_ddl_lsn_int s1))
      as [Hle | Hgt].
    - destruct (changes_loop_raises msg c (changes_of msg) s1' Hle Hin Hn Hk)
        as (k & st' & Hr).
      exists k, st'. now rewrite (bind_raise _ _ _ _ _ Hr).
    - assert (Hgate : applied_ddl_lsn_int s1' < data_start msg) by (cbn; lia).
      destruct (changes_loop_buffering db msg (changes_of msg) s1' Hgate)
        as (s2 & Hloop & _ & Hbuf & _).
      rewrite (bind_normal _ _ _ _ _ Hloop).
      change (BUFFERED_DMLS s1') with (BUFFERED_DMLS s1) in Hbuf.
      rewrite Hbuf1 in Hbuf. cbn [app] in Hbuf.
      assert (Hin' : In c (filter (fun c => negb (is_noise c)) (changes_of msg))).
      { apply filter_In. split; [exact Hin | now rewrite Hn]. }
      destruct (sweep_loop_raises msg c _ []
                  (emit (Print LogCheckingBuffered) s2) Hin' Hk)
        as (k & st' & Hr).
      exists k, st'.
      assert (Hsweep : sweep_phase db msg s2 = Raise (KeyError k) st').
      { unfold sweep_phase. rewrite bind_get_state, Hbuf.
        destruct (filter (fun c => negb (is_noise c)) (changes_of msg))
          as [| x xs] eqn:Hf; [contradiction |].
        cbn [map] in *. rewrite bind_print.
        now rewrite (bind_raise _ _ _ _ _ Hr). }
      now rewrite (bind_raise _ _ _ _ _ Hsweep). }
  destruct Hrun as (k & st' & Hrun). exists k, st'. split; [exact Hrun |].
  pose proof (handle_message_feedbacks db msg st) as Hf.
  rewrite Hrun in Hf. cbn in Hf. now rewrite app_nil_r in Hf.
Qed.

End MissingKeys.

Lemma change_without_keys_stops_message_witness :
  exists k st',
    handle_message db_quiet delete_message initial_state = Raise (KeyError k) st'
    /\ feedbacks (trace st') = feedbacks (trace initial_state).
Proof.
  apply (change_without_keys_stops_message db_quiet delete_message
           initial_state
           (state_of (poll_phase db_quiet delete_message initial_state))
           wal2json_delete).
  - reflexivity.
  - vm_compute. reflexivity.
  - cbn. tauto.
  - reflexivity.
  - intros (_ & H & _). now apply H.
Defined.

(** The delete halts the stream after the insert before it was sent. *)
Example delete_message_run :
  let out := handle_message db_quiet delete_message initial_state in
  out = Raise (KeyError "columnnames") (state_of out)
  /\ replica_statements (trace (state_of out))
     = [("INSERT INTO t (id, name) VALUES (%s, %s)", true)]
  /\ feedback_sent (trace (state_of out)) = false.
Proof. vm_compute. repeat split. Qed.

(** ** One statement per change *)

Section OneStatement.

Variable db : Databases.

(** X8.  [apply_dml] sends the statement of the change when the change
    translates to one, and nothing otherwise: never two statements for
    one change, however the replica answers and however the call ends. *)
Theorem apply_dml_sends_its_statement c st :
  sent (state_of (apply_dml db c st)) = (sent st ++ statements_of c)%list.
Proof.
  unfold statements_of.
  destruct (dml_statement c) as [[[line sql] params] |] eqn:Hs.
  - destruct (apply_dml_sends db c st) as (st' & -> & Hsent & _);
      [congruence |].
    cbn [state_of]. rewrite Hsent. unfold statement_of. now rewrite Hs.
  - rewrite app_nil_r. revert Hs. unfold dml_statement, apply_dml.
    destruct (table c) as [t |]; [| reflexivity].
    destruct (columnnames c) as [cols |]; [| reflexivity].
    destruct (columnvalues c) as [vals |]; [| reflexivity].
    destruct (kind c) as [op |]; [| reflexivity].
    cbn [getitem]. unfold bind at 1 2 3 4. unfold ret at 1 2 3 4.
    destruct (String.eqb op "insert"); [discriminate |].
    unfold try_except, bind, getitem, ret, raise.
    destruct (oldkeys c) as [ok |].
    + destruct (keyvalues ok) as [old |], (keynames ok) as [names |];
        destruct (String.eqb op "update"); try discriminate;
        destruct (String.eqb op "delete"); try discriminate;
        intros _; cbn [state_of]; apply sent_emit_print.
    + destruct (String.eqb op "update");
        [| destruct (String.eqb op "delete")];
        intros _; cbn [state_of]; apply sent_emit_print.
Qed.

End OneStatement.

(** ** Administrative statements *)

Lemma lower_app a b : Py.lower (a ++ b) = Py.lower a ++ Py.lower b.
Proof. induction a as [| c a IH]; [reflexivity |]. cbn. now rewrite IH. Qed.

Lemma startswith_app n b : Py.startswith n (n ++ b) = true.
Proof.
  induction n as [| c n IH]; [reflexivity |].
  cbn. now rewrite Ascii.eqb_refl, IH.
Qed.

Lemma contains_app n a b : Py.contains n (a ++ n ++ b) = true.
Proof.
  induction a as [| c a IH].
  - cbn [append]. destruct (n ++ b) eqn:E; cbn [Py.contains];
      rewrite <- E, startswith_app; reflexivity.
  - cbn [append Py.contains]. rewrite IH. apply orb_true_r.
Qed.

(** X7.  A statement that mentions the DDL-log table or a publication is
    administrative wherever the word stands in the text and whatever
    its letter case. *)
Theorem administrative_anywhere w pre post :
  Py.lower w = "translicate_ddl_log" \/ Py.lower w = "publication" ->
  is_administrative (pre ++ w ++ post) = true.
Proof.
  intros H. unfold is_administrative. rewrite !lower_app.
  destruct H as [-> | ->]; rewrite contains_app;
    [reflexivity | apply orb_true_r].
Qed.

Lemma administrative_anywhere_witness :
  is_administrative
    ("CREATE TABLE books (" ++ "Publication" ++ "_date date)") = true.
Proof.
  apply (administrative_anywhere "Publication" "CREATE TABLE books ("
           "_date date)").
  right. reflexivity.
Defined.

(** ** An LSN text the decoder rejects *)

Section BogusLsn.

Variable db : Databases.

(** X17.  When the poll returns a text the decoder rejects, [handle_message]
    raises the error of the decoder: the text has been stored in the
    mark while its integer is the old one, no change of the message is
    processed, and the message is not acknowledged. *)
Theorem undecodable_mark_stops_message msg st hw sA e :
  poll_and_apply_ddls db (applied_ddl_lsn_str st)
    (emit (Print (LogWalLSNString (int_to_lsn (data_start msg))))
       (emit (Print (LogAppliedDDLLSN (applied_ddl_lsn_str st)
                                      (applied_ddl_lsn_int st)))
          (emit (Print (LogCurrentLSN (data_start msg)))
             (emit (Print (LogEventJson msg))
                (emit (Print LogWal2jsonEvent) st)))))
  = Normal hw sA ->
  lsn_to_int hw = Err e ->
  handle_message db msg st
  = Raise e (mkState hw (applied_ddl_lsn_int sA) (BUFFERED_DMLS sA) (trace sA))
  /\ applied_ddl_lsn_int sA = applied_ddl_lsn_int st
  /\ feedbacks (trace sA) = feedbacks (trace st).
Proof.
  intros Hpoll Herr.
  assert (Hrun : handle_message db msg st
                 = Raise e (mkState hw (applied_ddl_lsn_int sA)
                              (BUFFERED_DMLS sA) (trace sA))).
  { unfold handle_message, poll_phase.
    rewrite bind_assoc, !bind_print.
    rewrite bind_assoc, !bind_print.
    rewrite bind_assoc, !bind_print.
    rewrite bind_assoc, bind_get_state.
    rewrite bind_assoc, !bind_print.
    rewrite bind_assoc, !bind_print.
    cbn [applied_ddl_lsn_str applied_ddl_lsn_int emit].
    rewrite bind_assoc. rewrite (bind_normal _ _ _ _ _ Hpoll).
    unfold bind, set_applied_str. rewrite Herr. reflexivity. }
  split; [exact Hrun | split].
  - match type of Hpoll with
    | poll_and_apply_ddls db ?since ?s = _ =>
        pose proof (preserves_normal mark (poll_and_apply_ddls db since) s hw sA) as Hm
    end.
    assert (Hp : forall since, preserves mark (poll_and_apply_ddls db since)).
    { intros since. unfold poll_and_apply_ddls.
      apply preserves_bind; [apply mark_print | intros _].
      apply preserves_bind; [apply mark_print | intros _].
      apply preserves_bind.
      { intros s. unfold primary_fetch_ddls.
        now destruct (primary_ddl_log db _ _). }
      intros rows. apply preserves_bind; [apply mark_print | intros _].
      apply preserves_bind; [| intros r; apply preserves_ret].
      clear. revert since. induction rows as [| row rows IH]; intros since;
        cbn [ddl_loop]; [apply preserves_ret |].
      destruct (is_administrative (ddl row)).
      - apply preserves_bind; [apply mark_print | intros _; apply IH].
      - apply preserves_bind; [apply mark_print | intros _].
        apply preserves_bind; [mark_steps | intros [|]; [apply IH | apply preserves_ret]]. }
    specialize (Hm (Hp _) Hpoll). unfold mark in Hm. now injection Hm.
  - pose proof (handle_message_feedbacks db msg st) as Hf.
    rewrite Hrun in Hf. cbn in Hf. now rewrite app_nil_r in Hf.
Qed.

End BogusLsn.

Lemma undecodable_mark_stops_message_witness :
  let sA :=
    state_of
      (poll_and_apply_ddls db_bogus_lsn "0/0"
         (emit (Print (LogWalLSNString (int_to_lsn 10)))
            (emit (Print (LogAppliedDDLLSN "0/0" 0))
               (emit (Print (LogCurrentLSN 10))
                  (emit (Print (LogEventJson insert_message))
                     (emit (Print LogWal2jsonEvent) initial_state)))))) in
  handle_message db_bogus_lsn insert_message initial_state
  = Raise ValueError
      (mkState "bogus" (applied_ddl_lsn_int sA) (BUFFERED_DMLS sA) (trace sA))
  /\ applied_ddl_lsn_int sA = applied_ddl_lsn_int initial_state
  /\ feedbacks (trace sA) = feedbacks (trace initial_state).
Proof.
  intros sA.
  apply (undecodable_mark_stops_message db_bogus_lsn insert_message
           initial_state "bogus" sA ValueError).
  - vm_compute. reflexivity.
  - reflexivity.
Defined.

(** The statement of the entry was executed before the message
    stopped. *)
Example bogus_lsn_run :
  replica_statements
    (trace (state_of (handle_message db_bogus_lsn insert_message initial_state)))
  = [("CREATE TABLE a (id int)", true)].
Proof. vm_compute. reflexivity. Qed.

(** ** Letter case of LSN texts *)

Lemma hex_digit_value_lower c :
  Py.hex_digit_value (Py.lower_char c) = Py.hex_digit_value c.
Proof. destruct c as [[] [] [] [] [] [] [] []]; reflexivity. Qed.

Lemma slash_lower c : Ascii.eqb (Py.lower_char c) "/" = Ascii.eqb c "/".
Proof. destruct c as [[] [] [] [] [] [] [] []]; reflexivity. Qed.

Lemma all_hex_lower s : all_hex (Py.lower s) = all_hex s.
Proof.
  induction s as [| c s IH]; [reflexivity |].
  cbn [Py.lower all_hex]. rewrite hex_digit_value_lower, IH. reflexivity.
Qed.

Lemma is_hex_numeral_lower s : is_hex_numeral (Py.lower s) = is_hex_numeral s.
Proof.
  destruct s as [| c s]; [reflexivity |].
  unfold is_hex_numeral. cbn [Py.lower]. apply (all_hex_lower (String c s)).
Qed.

Lemma hex_value_lower s : forall acc,
  hex_value acc (Py.lower s) = hex_value acc s.
Proof.
  induction s as [| c s IH]; intros acc; [reflexivity |].
  cbn [Py.lower hex_value]. rewrite hex_digit_value_lower.
  destruct (Py.hex_digit_value c); [apply IH | reflexivity].
Qed.

Lemma split_lower s :
  Py.split "/" (Py.lower s) = map Py.lower (Py.split "/" s).
Proof.
  induction s as [| c s IH]; [reflexivity |].
  cbn [Py.lower Py.split]. rewrite slash_lower, IH.
  destruct (Ascii.eqb c "/"); [reflexivity |].
  destruct (Py.split "/" s); reflexivity.
Qed.

(** X3.  The decoder does not tell the letter case of the digits: a strict
    LSN text and its lower-case form decode to the same position. *)
Theorem lsn_to_int_ignores_case s :
  strict_lsn_text s = true ->
  lsn_to_int (Py.lower s) = lsn_to_int s.
Proof.
  unfold strict_lsn_text. intros H.
  apply andb_true_iff in H as [_ H].
  destruct (Py.split "/" s) as [| high [| low [| x tl]]] eqn:Hs; try discriminate.
  apply andb_true_iff in H as [Hh Hl].
  rewrite (lsn_to_int_two_parts s high low (hex_value 0 high) (hex_value 0 low)
             Hs (int16_hex_numeral _ Hh) (int16_hex_numeral _ Hl)).
  apply (lsn_to_int_two_parts (Py.lower s) (Py.lower high) (Py.lower low)).
  - now rewrite split_lower, Hs.
  - rewrite <- (hex_value_lower high). apply int16_hex_numeral.
    now rewrite is_hex_numeral_lower.
  - rewrite <- (hex_value_lower low). apply int16_hex_numeral.
    now rewrite is_hex_numeral_lower.
Qed.

Lemma lsn_to_int_ignores_case_witness :
  lsn_to_int (Py.lower "16/B374D848") = lsn_to_int "16/B374D848".
Proof. apply (lsn_to_int_ignores_case "16/B374D848"). reflexivity. Defined.

(** ** C9: what becomes of the buffered changes *)

Section Drain.

Variable db : Databases.

(** A change that translates to no statement sends nothing through
    [apply_dml]. *)
Lemma apply_dml_silent c st :
  dml_statement c = None ->
  sent (state_of (apply_dml db c st)) = sent st.
Proof.
  unfold dml_statement, apply_dml.
  destruct (table c) as [t |]; [| reflexivity].
  destruct (columnnames c) as [cols |]; [| reflexivity].
  destruct (columnvalues c) as [vals |]; [| reflexivity].
  destruct (kind c) as [op |]; [| reflexivity].
  cbn [getitem]. unfold bind at 1 2 3 4. unfold ret at 1 2 3 4.
  destruct (String.eqb op "insert"); [discriminate |].
  unfold try_except, bind, getitem, ret, raise.
  destruct (oldkeys c) as [ok |].
  - destruct (keyvalues ok) as [old |], (keynames ok) as [names |];
      destruct (String.eqb op "update"); try discriminate;
      destruct (String.eqb op "delete"); try discriminate;
      intros _; cbn [state_of]; apply sent_emit_print.
  - destruct (String.eqb op "update");
      [| destruct (String.eqb op "delete")];
      intros _; cbn [state_of]; apply sent_emit_print.
Qed.

(** When [apply_dml] returns, it has sent the statement of the change,
    if the change has one, and left the buffer and the mark alone. *)
Lemma apply_dml_normal_sent c st st' :
  apply_dml db c st = Normal tt st' ->
  sent st' = (sent st ++ statements_of c)%list
  /\ BUFFERED_DMLS st' = BUFFERED_DMLS st
  /\ mark st' = mark st.
Proof.
  intros H. split; [| split].
  - unfold statements_of.
    destruct (dml_statement c) as [[[line sql] params] |] eqn:Hs.
    + destruct (apply_dml_sends db c st) as (s & Hrun & Hsent & _);
        [congruence |].
      rewrite Hrun in H. injection H as <-.
      rewrite Hsent. unfold statement_of. now rewrite Hs.
    + pose proof (apply_dml_silent c st Hs) as Hq. rewrite H in Hq.
      cbn [state_of] in Hq. now rewrite Hq, app_nil_r.
  - exact (keeps_normal _ _ _ _ (keeps_apply_dml db c) H).
  - exact (preserves_normal mark _ _ _ _ (mark_apply_dml db c) H).
Qed.

(** The loop over the changes with the gate open: each row change is
    applied on the spot. *)
Lemma changes_loop_open msg cs : forall st st',
  data_start msg <= applied_ddl_lsn_int st ->
  for_each cs (process_change db msg) st = Normal tt st' ->
  sent st'
  = (sent st
     ++ flat_map statements_of (filter (fun c => negb (is_noise c)) cs))%list
  /\ BUFFERED_DMLS st' = BUFFERED_DMLS st
  /\ mark st' = mark st.
Proof.
  induction cs as [| c cs IH]; intros st st' Hgate H.
  - injection H as <-. cbn. now rewrite app_nil_r.
  - cbn [for_each] in H.
    apply bind_inv_normal in H as ([] & s1 & Hc & Hrest).
    cbn [filter]. destruct (is_noise c) eqn:Hn; cbn [negb].
    + rewrite (process_change_noise db msg c st Hn) in Hc. injection Hc as <-.
      destruct (IH (emit (Print LogSkippingChange) st) st' Hgate Hrest)
        as (Hsent & Hbuf & Hmark).
      rewrite Hsent, Hbuf, Hmark, sent_emit_print. conjs; reflexivity.
    + rewrite (process_change_immediate db msg c st Hn Hgate) in Hc.
      apply apply_dml_normal_sent in Hc as (Hsent1 & Hbuf1 & Hmark1).
      assert (Hgate1 : data_start msg <= applied_ddl_lsn_int s1).
      { unfold mark in Hmark1. cbn in Hmark1. injection Hmark1 as _ ->.
        exact Hgate. }
      destruct (IH _ _ Hgate1 Hrest) as (Hsent & Hbuf & Hmark).
      rewrite Hsent, Hsent1, Hbuf, Hbuf1, Hmark, Hmark1, !sent_emit_print.
      cbn [flat_map]. rewrite <- app_assoc. conjs; reflexivity.
Qed.

(** The sweep loop over entries none of which is after the message:
    each is applied, in the order of the buffer, and none is kept. *)
Lemma sweep_loop_applies msg buffered : forall still st r st',
  Forall (fun entry : Z * Change => fst entry <= data_start msg) buffered ->
  sweep_loop db msg buffered still st = Normal r st' ->
  r = still
  /\ sent st' = (sent st ++ sweep_statements buffered)%list
  /\ BUFFERED_DMLS st' = BUFFERED_DMLS st.
Proof.
  induction buffered as [| [l c] rest IH]; intros still st r st' Hall H.
  - injection H as <- <-. cbn. now rewrite app_nil_r.
  - inversion Hall as [| ? ? Hl Hall']; subst. cbn [fst] in Hl.
    cbn [sweep_loop] in H.
    replace (l <=? data_start msg) with true in H
      by (symmetry; now apply Z.leb_le).
    rewrite bind_print in H.
    apply bind_inv_normal in H as ([] & s1 & Hc & Hrest).
    apply apply_dml_normal_sent in Hc as (Hsent1 & Hbuf1 & _).
    destruct (IH _ _ _ _ Hall' Hrest) as (-> & Hsent & Hbuf).
    rewrite Hsent, Hsent1, Hbuf, Hbuf1, sent_emit_print.
    unfold sweep_statements. cbn [flat_map snd]. rewrite <- app_assoc.
    conjs; reflexivity.
Qed.

(** The sweep of a buffer that holds nothing after the message applies
    every entry and leaves the buffer empty. *)
Lemma sweep_phase_applies msg st st' :
  buffer_upto (data_start msg) st ->
  sweep_phase db msg st = Normal tt st' ->
  BUFFERED_DMLS st' = []
  /\ sent st' = (sent st ++ sweep_statements (BUFFERED_DMLS st))%list.
Proof.
  unfold buffer_upto, sweep_phase. intros Hup. rewrite bind_get_state.
  destruct (BUFFERED_DMLS st) as [| entry rest] eqn:Hbuf.
  - intros H. injection H as <-. cbn. now rewrite Hbuf, app_nil_r.
  - rewrite bind_print. intros H.
    apply bind_inv_normal in H as (still & s2 & Hloop & H).
    apply sweep_loop_applies in Hloop as (-> & Hsent & _); [| exact Hup].
    unfold bind, set_buffer, print in H. injection H as <-.
    split; [reflexivity |].
    rewrite sent_emit_print. rewrite sent_emit_print in Hsent.
    exact Hsent.
Qed.

(** C9. No change is deferred across messages.  After any number of
    messages handled from the initial state the buffer is empty; and
    when the next message is handled, whatever the databases answer,
    the changes buffered while it is handled (all its row changes when
    its position is after the mark, none otherwise) are each applied by
    the sweep of that same message, in the order of the buffer, so that
    every row change of the message has been applied, and the buffer is
    empty, when [handle_message] returns. *)
Theorem buffer_empty_after_every_message msgs st :
  consume_stream db msgs initial_state = Normal tt st ->
  BUFFERED_DMLS st = []
  /\ forall msg st',
       handle_message db msg st = Normal tt st' ->
       BUFFERED_DMLS st' = []
       /\ exists s1 s2 s3,
            poll_phase db msg st = Normal tt s1
            /\ for_each (changes_of msg) (process_change db msg)
                 (emit (Print (LogNumberOfChanges
                                 (List.length (changes_of msg)))) s1)
               = Normal tt s2
            /\ BUFFERED_DMLS s2
               = (if applied_ddl_lsn_int s1 <? data_start msg
                  then map (pair (data_start msg)) (row_changes msg)
                  else [])
            /\ sweep_phase db msg s2 = Normal tt s3
            /\ sent s3 = (sent s2 ++ sweep_statements (BUFFERED_DMLS s2))%list
            /\ sent s3
               = (sent s1 ++ flat_map statements_of (row_changes msg))%list
            /\ BUFFERED_DMLS s3 = [].
Proof.
  intros Hstream.
  assert (Hempty : BUFFERED_DMLS st = []).
  { now apply (consume_stream_drains db msgs initial_state). }
  split; [exact Hempty |]. intros msg st' H.
  split.
  { apply (handle_message_drains db msg st); [| exact H].
    unfold buffer_upto. rewrite Hempty. constructor. }
  unfold handle_message in H.
  apply bind_inv_normal in H as ([] & s1 & Hpoll & H).
  rewrite bind_print in H.
  apply bind_inv_normal in H as ([] & s2 & Hloop & H).
  apply bind_inv_normal in H as ([] & s3 & Hsweep & _).
  exists s1, s2, s3.
  assert (Hbuf1 : BUFFERED_DMLS s1 = []).
  { now rewrite (keeps_normal _ _ _ _ (keeps_poll_phase db msg) Hpoll). }
  set (s1' := emit (Print (LogNumberOfChanges (List.length (changes_of msg)))) s1)
    in *.
  assert (Hsent1 : sent s1' = sent s1) by apply sent_emit_print.
  assert (Hfacts :
    BUFFERED_DMLS s2
    = (if applied_ddl_lsn_int s1 <? data_start msg
       then map (pair (data_start msg)) (row_changes msg) else [])
    /\ (sent s2 ++ sweep_statements (BUFFERED_DMLS s2))%list
       = (sent s1 ++ flat_map statements_of (row_changes msg))%list).
  { destruct (applied_ddl_lsn_int s1 <? data_start msg) eqn:Hgate.
    - apply Z.ltb_lt in Hgate.
      destruct (changes_loop_buffering db msg (changes_of msg) s1' Hgate)
        as (s & Hrun & Hsent & Hbuf & _).
      rewrite Hrun in Hloop. injection Hloop as ->.
      change (BUFFERED_DMLS s1') with (BUFFERED_DMLS s1) in Hbuf.
      rewrite Hbuf1 in Hbuf. cbn [app] in Hbuf. fold (row_changes msg) in Hbuf.
      split; [exact Hbuf |].
      rewrite Hbuf, Hsent, Hsent1. f_equal.
      unfold sweep_statements. clear.
      induction (row_changes msg) as [| c cs IHc]; [reflexivity |].
      cbn [map flat_map snd]. now rewrite IHc.
    - apply Z.ltb_ge in Hgate.
      destruct (changes_loop_open msg (changes_of msg) s1' s2 Hgate Hloop)
        as (Hsent & Hbuf & _).
      change (BUFFERED_DMLS s1') with (BUFFERED_DMLS s1) in Hbuf.
      rewrite Hbuf1 in Hbuf. split; [exact Hbuf |].
      rewrite Hbuf, Hsent, Hsent1. cbn. now rewrite app_nil_r. }
  destruct Hfacts as (Hbuf2 & Hall).
  assert (Hup : buffer_upto (data_start msg) s2).
  { unfold buffer_upto. rewrite Hbuf2.
    destruct (applied_ddl_lsn_int s1 <? data_start msg); [| constructor].
    apply Forall_forall. intros entry Hin.
    apply in_map_iff in Hin as (c & <- & _). cbn. lia. }
  destruct (sweep_phase_applies msg s2 s3 Hup Hsweep) as (Hbuf3 & Hsent3).
  conjs; try assumption; try reflexivity.
  now rewrite Hsent3.
Qed.

End Drain.

Lemma buffer_empty_after_every_message_witness :
  let st :=
    state_of (consume_stream db_failing_ddl [insert_message] initial_state) in
  let msg := mkMessage 12 (Some [update_change; noise_change; insert_change]) in
  let st' := state_of (handle_message db_failing_ddl msg st) in
  BUFFERED_DMLS st = []
  /\ BUFFERED_DMLS st' = []
  /\ exists s1 s2 s3,
       poll_phase db_failing_ddl msg st = Normal tt s1
       /\ for_each (changes_of msg) (process_change db_failing_ddl msg)
            (emit (Print (LogNumberOfChanges (List.length (changes_of msg)))) s1)
          = Normal tt s2
       /\ BUFFERED_DMLS s2
          = (if applied_ddl_lsn_int s1 <? data_start msg
             then map (pair (data_start msg)) (row_changes msg)
             else [])
       /\ sweep_phase db_failing_ddl msg s2 = Normal tt s3
       /\ sent s3 = (sent s2 ++ sweep_statements (BUFFERED_DMLS s2))%list
       /\ sent s3 = (sent s1 ++ flat_map statements_of (row_changes msg))%list
       /\ BUFFERED_DMLS s3 = [].
Proof.
  intros st msg st'.
  destruct (buffer_empty_after_every_message db_failing_ddl [insert_message] st)
    as (Hempty & Hnext).
  - vm_compute. reflexivity.
  - split; [exact Hempty |]. apply Hnext. vm_compute. reflexivity.
Defined.

(** In that run the two row changes of the second message are buffered
    behind the rejected DDL entry and sent by the sweep of the same
    message. *)
Example buffered_then_swept_run :
  let st :=
    state_of (consume_stream db_failing_ddl [insert_message] initial_state) in
  let msg := mkMessage 12 (Some [update_change; noise_change; insert_change]) in
  sweep_statements (map (pair 12) (row_changes msg))
  = [ "UPDATE t SET name = %s WHERE id = %s";
      "INSERT INTO t (id, name) VALUES (%s, %s)" ]
  /\ replica_statements
       (skipn (List.length (trace st))
          (trace (state_of (handle_message db_failing_ddl msg st))))
     = [ ("ALTER TABLE t ADD COLUMN name text", false);
         ("UPDATE t SET name = %s WHERE id = %s", true);
         ("INSERT INTO t (id, name) VALUES (%s, %s)", true);
         (SEQ_QUERY, true) ].
Proof. vm_compute. split; reflexivity. Qed.
